(** * Texture loading of the Phong-shading renderer (configTexture.js)

    A shallow embedding of [configureCubeMap] and [configureTexture]
    together with the part of the WebGL context they drive.  The WebGL
    calls are state transformers on an explicit context state; the
    JavaScript side (the global [cubeMap], the [Image] objects and their
    [onload] closures) lives in a small state-and-exception monad.

    The context follows the WebGL 2 API for the calls the two functions
    make: texture names, bindings per unit and target, texture parameters,
    images per face and level, integer uniforms, and the error flag.  The
    pixels of an image are stood for by the image itself, and formats and
    sizes are not validated. *)

From stdpp Require Import gmap strings list fin_maps.
From Stdlib Require Import ZArith.

Local Open Scope Z_scope.

(** ** The WebGL context *)

Module gl.

(** GLenum values, as the [gl.*] constants of the WebGL API. *)
Definition NO_ERROR : Z := 0.
Definition INVALID_ENUM : Z := 0x0500.
Definition INVALID_VALUE : Z := 0x0501.
Definition INVALID_OPERATION : Z := 0x0502.

Definition TEXTURE0 : Z := 0x84C0.
Definition TEXTURE_2D : Z := 0x0DE1.
Definition TEXTURE_3D : Z := 0x806F.
Definition TEXTURE_2D_ARRAY : Z := 0x8C1A.
Definition TEXTURE_CUBE_MAP : Z := 0x8513.
Definition TEXTURE_CUBE_MAP_POSITIVE_X : Z := 0x8515.
Definition TEXTURE_CUBE_MAP_NEGATIVE_X : Z := 0x8516.
Definition TEXTURE_CUBE_MAP_POSITIVE_Y : Z := 0x8517.
Definition TEXTURE_CUBE_MAP_NEGATIVE_Y : Z := 0x8518.
Definition TEXTURE_CUBE_MAP_POSITIVE_Z : Z := 0x8519.
Definition TEXTURE_CUBE_MAP_NEGATIVE_Z : Z := 0x851A.

Definition TEXTURE_MAG_FILTER : Z := 0x2800.
Definition TEXTURE_MIN_FILTER : Z := 0x2801.
Definition TEXTURE_WRAP_S : Z := 0x2802.
Definition TEXTURE_WRAP_T : Z := 0x2803.

Definition NEAREST : Z := 0x2600.
Definition LINEAR : Z := 0x2601.
Definition NEAREST_MIPMAP_NEAREST : Z := 0x2700.
Definition LINEAR_MIPMAP_NEAREST : Z := 0x2701.
Definition NEAREST_MIPMAP_LINEAR : Z := 0x2702.
Definition LINEAR_MIPMAP_LINEAR : Z := 0x2703.

Definition REPEAT : Z := 0x2901.
Definition CLAMP_TO_EDGE : Z := 0x812F.
Definition MIRRORED_REPEAT : Z := 0x8370.

Definition RGB : Z := 0x1907.
Definition RGBA : Z := 0x1908.
Definition UNSIGNED_BYTE : Z := 0x1401.

(** Number of texture image units (the minimum a WebGL 2 context offers). *)
Definition MAX_COMBINED_TEXTURE_IMAGE_UNITS : Z := 32.

(** One image of a texture: the formats of the upload and the [Image]
    object (a reference into the JavaScript heap) the pixels came from. *)
Record TexImage := mkTexImage {
  ti_internalformat : Z;
  ti_format : Z;
  ti_type : Z;
  ti_source : nat
}.

(** A texture object.  [tex_target] is unset until the first bind;
    [tex_images] is keyed by (image target, level); [tex_mipmaps] records
    that [generateMipmap] has filled the levels above the base level. *)
Record Texture := mkTexture {
  tex_target : option Z;
  tex_min_filter : Z;
  tex_mag_filter : Z;
  tex_wrap_s : Z;
  tex_wrap_t : Z;
  tex_images : gmap (Z * Z) TexImage;
  tex_mipmaps : bool
}.

(** The state a fresh texture object starts in. *)
Definition new_texture : Texture :=
  mkTexture None NEAREST_MIPMAP_LINEAR LINEAR REPEAT REPEAT ∅ false.

(** The context: active texture unit, texture objects (a WebGLTexture is
    its index), the bindings per (unit, target), the program in use, the
    integer uniforms of the linked programs, and the error flag. *)
Record state := mkState {
  activeUnit : Z;
  textures : list Texture;
  bindings : gmap (Z * Z) nat;
  currentProgram : option nat;
  programs : gmap nat (gmap string Z);
  lastError : Z
}.

Definition set_activeUnit (u : Z) (g : state) : state :=
  mkState u (textures g) (bindings g) (currentProgram g) (programs g) (lastError g).
Definition set_textures (ts : list Texture) (g : state) : state :=
  mkState (activeUnit g) ts (bindings g) (currentProgram g) (programs g) (lastError g).
Definition set_bindings (bs : gmap (Z * Z) nat) (g : state) : state :=
  mkState (activeUnit g) (textures g) bs (currentProgram g) (programs g) (lastError g).
Definition set_programs (ps : gmap nat (gmap string Z)) (g : state) : state :=
  mkState (activeUnit g) (textures g) (bindings g) (currentProgram g) ps (lastError g).

(** The error flag keeps the first error until it is read. *)
Definition set_error (e : Z) (g : state) : state :=
  if lastError g =? NO_ERROR
  then mkState (activeUnit g) (textures g) (bindings g) (currentProgram g) (programs g) e
  else g.

Definition set_tex_target (t : Z) (o : Texture) : Texture :=
  mkTexture (Some t) (tex_min_filter o) (tex_mag_filter o) (tex_wrap_s o) (tex_wrap_t o)
            (tex_images o) (tex_mipmaps o).
Definition set_tex_min_filter (v : Z) (o : Texture) : Texture :=
  mkTexture (tex_target o) v (tex_mag_filter o) (tex_wrap_s o) (tex_wrap_t o)
            (tex_images o) (tex_mipmaps o).
Definition set_tex_mag_filter (v : Z) (o : Texture) : Texture :=
  mkTexture (tex_target o) (tex_min_filter o) v (tex_wrap_s o) (tex_wrap_t o)
            (tex_images o) (tex_mipmaps o).
Definition set_tex_wrap_s (v : Z) (o : Texture) : Texture :=
  mkTexture (tex_target o) (tex_min_filter o) (tex_mag_filter o) v (tex_wrap_t o)
            (tex_images o) (tex_mipmaps o).
Definition set_tex_wrap_t (v : Z) (o : Texture) : Texture :=
  mkTexture (tex_target o) (tex_min_filter o) (tex_mag_filter o) (tex_wrap_s o) v
            (tex_images o) (tex_mipmaps o).
Definition set_tex_image (k : Z * Z) (i : TexImage) (o : Texture) : Texture :=
  mkTexture (tex_target o) (tex_min_filter o) (tex_mag_filter o) (tex_wrap_s o) (tex_wrap_t o)
            (<[k := i]> (tex_images o)) (tex_mipmaps o).
Definition set_tex_mipmaps (b : bool) (o : Texture) : Texture :=
  mkTexture (tex_target o) (tex_min_filter o) (tex_mag_filter o) (tex_wrap_s o) (tex_wrap_t o)
            (tex_images o) b.

Definition is_bind_target (t : Z) : bool :=
  (t =? TEXTURE_2D) || (t =? TEXTURE_CUBE_MAP) || (t =? TEXTURE_3D) || (t =? TEXTURE_2D_ARRAY).

Definition cube_faces : list Z :=
  [ TEXTURE_CUBE_MAP_POSITIVE_X; TEXTURE_CUBE_MAP_NEGATIVE_X;
    TEXTURE_CUBE_MAP_POSITIVE_Y; TEXTURE_CUBE_MAP_NEGATIVE_Y;
    TEXTURE_CUBE_MAP_POSITIVE_Z; TEXTURE_CUBE_MAP_NEGATIVE_Z ].

Definition is_cube_face (t : Z) : bool :=
  (TEXTURE_CUBE_MAP_POSITIVE_X <=? t) && (t <=? TEXTURE_CUBE_MAP_NEGATIVE_Z).

(** The binding point a two-dimensional image target belongs to. *)
Definition image_binding_point (t : Z) : option Z :=
  if t =? TEXTURE_2D then Some TEXTURE_2D
  else if is_cube_face t then Some TEXTURE_CUBE_MAP
  else None.

(** The texture bound to [target] on the active unit, with its object. *)
Definition bound_texture (g : state) (target : Z) : option (nat * Texture) :=
  match bindings g !! (activeUnit g, target) with
  | Some t => match textures g !! t with
              | Some o => Some (t, o)
              | None => None
              end
  | None => None
  end.

Definition activeTexture (e : Z) (g : state) : state :=
  let u := e - TEXTURE0 in
  if (0 <=? u) && (u <? MAX_COMBINED_TEXTURE_IMAGE_UNITS)
  then set_activeUnit u g
  else set_error INVALID_ENUM g.

Definition createTexture (g : state) : nat * state :=
  (length (textures g), set_textures (textures g ++ [new_texture]) g).

Definition bindTexture (target : Z) (tex : option nat) (g : state) : state :=
  if negb (is_bind_target target) then set_error INVALID_ENUM g
  else match tex with
       | None => set_bindings (delete (activeUnit g, target) (bindings g)) g
       | Some t =>
           match textures g !! t with
           | None => set_error INVALID_OPERATION g
           | Some o =>
               let bind o' :=
                 set_bindings (<[(activeUnit g, target) := t]> (bindings g))
                              (set_textures (<[t := o']> (textures g)) g) in
               match tex_target o with
               | None => bind (set_tex_target target o)
               | Some t0 => if t0 =? target then bind o
                            else set_error INVALID_OPERATION g
               end
           end
       end.

Definition valid_min_filter (v : Z) : bool :=
  (v =? NEAREST) || (v =? LINEAR) || ((NEAREST_MIPMAP_NEAREST <=? v) && (v <=? LINEAR_MIPMAP_LINEAR)).
Definition valid_mag_filter (v : Z) : bool := (v =? NEAREST) || (v =? LINEAR).
Definition valid_wrap (v : Z) : bool :=
  (v =? REPEAT) || (v =? CLAMP_TO_EDGE) || (v =? MIRRORED_REPEAT).

Definition texParameteri (target pname param : Z) (g : state) : state :=
  if negb (is_bind_target target) then set_error INVALID_ENUM g
  else match bound_texture g target with
       | None => set_error INVALID_OPERATION g
       | Some (t, o) =>
           let upd (ok : bool) (o' : Texture) :=
             if ok then set_textures (<[t := o']> (textures g)) g
             else set_error INVALID_ENUM g in
           if pname =? TEXTURE_MIN_FILTER
           then upd (valid_min_filter param) (set_tex_min_filter param o)
           else if pname =? TEXTURE_MAG_FILTER
           then upd (valid_mag_filter param) (set_tex_mag_filter param o)
           else if pname =? TEXTURE_WRAP_S
           then upd (valid_wrap param) (set_tex_wrap_s param o)
           else if pname =? TEXTURE_WRAP_T
           then upd (valid_wrap param) (set_tex_wrap_t param o)
           else set_error INVALID_ENUM g
       end.

Definition texImage2D (target level internalformat format type : Z) (image : nat)
    (g : state) : state :=
  match image_binding_point target with
  | None => set_error INVALID_ENUM g
  | Some bp =>
      if level <? 0 then set_error INVALID_VALUE g
      else match bound_texture g bp with
           | None => set_error INVALID_OPERATION g
           | Some (t, o) =>
               set_textures
                 (<[t := set_tex_image (target, level)
                           (mkTexImage internalformat format type image) o]>
                    (textures g)) g
           end
  end.

(** The level-0 images [generateMipmap] starts from: the one image of a
    2D texture, all six faces of a cubemap. *)
Definition base_complete (target : Z) (o : Texture) : bool :=
  if target =? TEXTURE_CUBE_MAP
  then forallb (fun f => bool_decide (is_Some (tex_images o !! (f, 0)))) cube_faces
  else bool_decide (is_Some (tex_images o !! (target, 0))).

Definition generateMipmap (target : Z) (g : state) : state :=
  if negb (is_bind_target target) then set_error INVALID_ENUM g
  else match bound_texture g target with
       | None => set_error INVALID_OPERATION g
       | Some (t, o) =>
           if base_complete target o
           then set_textures (<[t := set_tex_mipmaps true o]> (textures g)) g
           else set_error INVALID_OPERATION g
       end.

(** A uniform location is the pair of its program and its name; [None]
    is JavaScript's null. *)
Definition getUniformLocation (program : nat) (name : string) (g : state)
    : option (nat * string) * state :=
  match programs g !! program with
  | None => (None, set_error INVALID_OPERATION g)
  | Some us => match us !! name with
               | Some _ => (Some (program, name), g)
               | None => (None, g)
               end
  end.

Definition uniform1i (loc : option (nat * string)) (v : Z) (g : state) : state :=
  match loc with
  | None => g
  | Some (p, name) =>
      if bool_decide (currentProgram g = Some p)
      then match programs g !! p with
           | Some us => set_programs (<[p := <[name := v]> us]> (programs g)) g
           | None => set_error INVALID_OPERATION g
           end
      else set_error INVALID_OPERATION g
  end.

(** Whether sampling with minification filter [v] reads mipmap levels. *)
Definition uses_mipmaps (v : Z) : bool :=
  (NEAREST_MIPMAP_NEAREST <=? v) && (v <=? LINEAR_MIPMAP_LINEAR).

(** The value of an integer (sampler) uniform. *)
Definition uniform_value (g : state) (p : nat) (name : string) : option Z :=
  match programs g !! p with
  | Some us => us !! name
  | None => None
  end.

End gl.

(** ** The JavaScript side *)

(** The WebGL calls the two functions issue, as they appear in the log. *)
Inductive Call :=
| C_activeTexture (texture : Z)
| C_createTexture (result : nat)
| C_bindTexture (target : Z) (texture : option nat)
| C_texParameteri (target pname param : Z)
| C_texImage2D (target level internalformat format type : Z) (image : nat)
| C_generateMipmap (target : Z)
| C_getUniformLocation (program : nat) (name : string)
| C_uniform1i (location : option (nat * string)) (value : Z).

(** The closure built in the loop of [configureCubeMap]: it captures the
    values of [cubeMap], [face] and [image] of its own iteration. *)
Inductive Callback :=
| FaceUpload (cubeMap : option nat) (face : Z) (image : nat).

(** An [Image] object: its [src] and its event handlers (null when unset). *)
Record Image := mkImage {
  src : string;
  onload : option Callback;
  onerror : option Callback
}.

(** The program state: the WebGL context behind the global [gl], the
    global variable [cubeMap], the [Image] objects allocated so far (an
    image is its index) and the log of WebGL calls. *)
Record World := mkWorld {
  ctx : gl.state;
  cubeMap : option nat;
  images : list Image;
  calls : list Call
}.

Inductive Exn := TypeError.

Inductive Res (A : Type) :=
| Ok (a : A) (w : World)
| Throw (e : Exn) (w : World).
Arguments Ok {A} a w.
Arguments Throw {A} e w.

Definition JS (A : Type) : Type := World -> Res A.

Definition ret {A} (a : A) : JS A := fun w => Ok a w.
Definition bind {A B} (c : JS A) (k : A -> JS B) : JS B :=
  fun w => match c w with
           | Ok a w' => k a w'
           | Throw e w' => Throw e w'
           end.
Definition throw {A} (e : Exn) : JS A := fun w => Throw e w.

Notation "x <- c ;; k" := (bind c (fun x => k))
  (at level 20, c at level 99, k at level 200, only parsing).
Notation "c ;; k" := (bind c (fun _ => k))
  (at level 100, k at level 200, right associativity, only parsing).

(** A WebGL call that returns nothing: logged, then applied to the context. *)
Definition gl_do (c : Call) (f : gl.state -> gl.state) : JS unit :=
  fun w => Ok tt (mkWorld (f (ctx w)) (cubeMap w) (images w) (calls w ++ [c])).

Definition gl_activeTexture (e : Z) : JS unit :=
  gl_do (C_activeTexture e) (gl.activeTexture e).
Definition gl_createTexture : JS nat :=
  fun w => let r := gl.createTexture (ctx w) in
           Ok r.1 (mkWorld r.2 (cubeMap w) (images w) (calls w ++ [C_createTexture r.1])).
Definition gl_bindTexture (target : Z) (tex : option nat) : JS unit :=
  gl_do (C_bindTexture target tex) (gl.bindTexture target tex).
Definition gl_texParameteri (target pname param : Z) : JS unit :=
  gl_do (C_texParameteri target pname param) (gl.texParameteri target pname param).
Definition gl_texImage2D (target level internalformat format type : Z) (image : nat)
    : JS unit :=
  gl_do (C_texImage2D target level internalformat format type image)
        (gl.texImage2D target level internalformat format type image).
Definition gl_generateMipmap (target : Z) : JS unit :=
  gl_do (C_generateMipmap target) (gl.generateMipmap target).
Definition gl_getUniformLocation (program : nat) (name : string)
    : JS (option (nat * string)) :=
  fun w => let r := gl.getUniformLocation program name (ctx w) in
           Ok r.1 (mkWorld r.2 (cubeMap w) (images w)
                           (calls w ++ [C_getUniformLocation program name])).
Definition gl_uniform1i (loc : option (nat * string)) (v : Z) : JS unit :=
  gl_do (C_uniform1i loc v) (gl.uniform1i loc v).

(** The global variable [cubeMap]. *)
Definition get_cubeMap : JS (option nat) := fun w => Ok (cubeMap w) w.
Definition set_cubeMap (t : option nat) : JS unit :=
  fun w => Ok tt (mkWorld (ctx w) t (images w) (calls w)).

(** [new Image()], [image.src = s] and [image.onload = f]. *)
Definition new_Image : JS nat :=
  fun w => Ok (length (images w))
              (mkWorld (ctx w) (cubeMap w) (images w ++ [mkImage "" None None]) (calls w)).
Definition update_image (i : nat) (f : Image -> Image) : JS unit :=
  fun w => Ok tt (mkWorld (ctx w) (cubeMap w)
                          (match images w !! i with
                           | Some im => <[i := f im]> (images w)
                           | None => images w
                           end) (calls w)).
Definition set_src (i : nat) (s : string) : JS unit :=
  update_image i (fun im => mkImage s (onload im) (onerror im)).
Definition set_onload (i : nat) (f : Callback) : JS unit :=
  update_image i (fun im => mkImage (src im) (Some f) (onerror im)).

(** [a[i]] followed by a property read: indexing past the end yields
    undefined, and reading a property of undefined throws. *)
Definition index {A} (a : list A) (i : nat) : JS A :=
  match a !! i with
  | Some x => ret x
  | None => throw TypeError
  end.

(** [for (var i = 0; i < n; i++) body]. *)
Fixpoint for_each {A} (l : list A) (body : A -> JS unit) : JS unit :=
  match l with
  | [] => ret tt
  | x :: l' => body x ;; for_each l' body
  end.
Definition for_upto (n : nat) (body : nat -> JS unit) : JS unit :=
  for_each (seq 0 n) body.

(** The array [faces] of [configureCubeMap]. *)
Definition faces : list (string * Z) :=
  [ ("./skybox/right.jpg", gl.TEXTURE_CUBE_MAP_POSITIVE_X);
    ("./skybox/left.jpg", gl.TEXTURE_CUBE_MAP_NEGATIVE_X);
    ("./skybox/top.jpg", gl.TEXTURE_CUBE_MAP_POSITIVE_Y);
    ("./skybox/bottom.jpg", gl.TEXTURE_CUBE_MAP_NEGATIVE_Y);
    ("./skybox/front.jpg", gl.TEXTURE_CUBE_MAP_POSITIVE_Z);
    ("./skybox/back.jpg", gl.TEXTURE_CUBE_MAP_NEGATIVE_Z) ]%string.

(** One iteration of the loop of [configureCubeMap]. *)
Definition face_loop_body (i : nat) : JS unit :=
  fi <- index faces i ;;
  let face := fi.2 in
  image <- new_Image ;;
  fi' <- index faces i ;;
  set_src image fi'.1 ;;
  cm <- get_cubeMap ;;
  set_onload image (FaceUpload cm face image).

Definition configureCubeMap (program : nat) : JS unit :=
  gl_activeTexture gl.TEXTURE0 ;;
  t <- gl_createTexture ;;
  set_cubeMap (Some t) ;;
  cm <- get_cubeMap ;;
  gl_bindTexture gl.TEXTURE_CUBE_MAP cm ;;
  gl_texParameteri gl.TEXTURE_CUBE_MAP gl.TEXTURE_MAG_FILTER gl.LINEAR ;;
  gl_texParameteri gl.TEXTURE_CUBE_MAP gl.TEXTURE_MIN_FILTER gl.LINEAR ;;
  loc <- gl_getUniformLocation program "cubeSampler" ;;
  gl_uniform1i loc 0 ;;
  for_upto 6 face_loop_body.

(** The body of an [onload] closure. *)
Definition run_callback (f : Callback) : JS unit :=
  match f with
  | FaceUpload _ face image =>
      gl_texImage2D face 0 gl.RGB gl.RGB gl.UNSIGNED_BYTE image
  end.

Definition configureTexture (image : nat) : JS nat :=
  texture <- gl_createTexture ;;
  gl_bindTexture gl.TEXTURE_2D (Some texture) ;;
  gl_texImage2D gl.TEXTURE_2D 0 gl.RGBA gl.RGBA gl.UNSIGNED_BYTE image ;;
  gl_texParameteri gl.TEXTURE_2D gl.TEXTURE_MIN_FILTER gl.LINEAR_MIPMAP_LINEAR ;;
  gl_texParameteri gl.TEXTURE_2D gl.TEXTURE_MAG_FILTER gl.LINEAR ;;
  gl_texParameteri gl.TEXTURE_2D gl.TEXTURE_WRAP_S gl.REPEAT ;;
  gl_texParameteri gl.TEXTURE_2D gl.TEXTURE_WRAP_T gl.REPEAT ;;
  gl_generateMipmap gl.TEXTURE_2D ;;
  gl_bindTexture gl.TEXTURE_2D None ;;
  ret texture.

(** ** Image events

    Once an image's fetch settles the browser queues one event for it:
    [load] when it decoded, [error] when it is missing or corrupt.  The
    event runs the handler stored in the matching property, if any. *)
Inductive Event :=
| load (image : nat)
| error (image : nat).

Definition handler (h : list Image) (ev : Event) : option Callback :=
  match ev with
  | load i => im ← h !! i; onload im
  | error i => im ← h !! i; onerror im
  end.

Definition dispatch (ev : Event) : JS unit :=
  fun w => match handler (images w) ev with
           | Some f => run_callback f w
           | None => Ok tt w
           end.

Fixpoint run_events (evs : list Event) : JS unit :=
  match evs with
  | [] => ret tt
  | ev :: evs' => dispatch ev ;; run_events evs'
  end.

(** A world to evaluate on: a context with one linked program in use. *)
Definition demo_ctx : gl.state :=
  gl.mkState 3 [] ∅ (Some 0%nat)
    {[ 0%nat := {[ "cubeSampler"%string := 5; "diffuseTexture"%string := 1;
                    "depthTexture"%string := 2 ]} ]} 0.
Definition demo_world : World := mkWorld demo_ctx None [] [].

(** ** States the two functions lead to *)

Section outcomes.
Import gl.

(** The cubemap texture object as [configureCubeMap] leaves it, holding
    the face images [m]. *)
Definition cube_texture (m : gmap (Z * Z) TexImage) : Texture :=
  mkTexture (Some TEXTURE_CUBE_MAP) LINEAR LINEAR REPEAT REPEAT m false.

(** The context after the five texture calls that open [configureCubeMap]. *)
Definition cube_setup (g : state) : state :=
  mkState 0 (textures g ++ [cube_texture ∅])
          (<[(0, TEXTURE_CUBE_MAP) := length (textures g)]> (bindings g))
          (currentProgram g) (programs g) (lastError g).

(** A context in which the newest texture [o] is bound to [target] on
    the active unit [u]. *)
Definition bound_state (u : Z) (ts : list Texture) (o : Texture) (target : Z)
    (bs : gmap (Z * Z) nat) (cp : option nat) (ps : gmap nat (gmap string Z)) (er : Z)
    : state :=
  mkState u (ts ++ [o]) (<[(u, target) := length ts]> bs) cp ps er.

(** The context after the two uniform calls of [configureCubeMap]. *)
Definition cube_uniform (p : nat) (g : state) : state :=
  let r := getUniformLocation p "cubeSampler" g in uniform1i r.1 0 r.2.

(** The calls [configureCubeMap] logs, given the texture [n] it created
    and the location [loc] the lookup returned. *)
Definition cube_calls (p n : nat) (loc : option (nat * string)) : list Call :=
  [ C_activeTexture TEXTURE0;
    C_createTexture n;
    C_bindTexture TEXTURE_CUBE_MAP (Some n);
    C_texParameteri TEXTURE_CUBE_MAP TEXTURE_MAG_FILTER LINEAR;
    C_texParameteri TEXTURE_CUBE_MAP TEXTURE_MIN_FILTER LINEAR;
    C_getUniformLocation p "cubeSampler";
    C_uniform1i loc 0 ].

(** The [Image] object the loop builds for entry [f] of [faces], stored
    at index [i]. *)
Definition face_image (cm : option nat) (i : nat) (f : string * Z) : Image :=
  mkImage f.1 (Some (FaceUpload cm f.2 i)) None.

(** The six [Image] objects, the first at index [n0]. *)
Definition cube_images (cm : option nat) (n0 : nat) : list Image :=
  imap (fun k f => face_image cm (n0 + k) f) faces.

(** What [configureCubeMap] leaves behind, for the texture name [n] and
    the image index [n0] that are next free in [w]. *)
Definition after_configureCubeMap (p : nat) (w : World) : World :=
  let n := length (textures (ctx w)) in
  mkWorld (cube_uniform p (cube_setup (ctx w)))
          (Some n)
          (images w ++ cube_images (Some n) (length (images w)))
          (calls w ++ cube_calls p n (getUniformLocation p "cubeSampler" (cube_setup (ctx w))).1).

(** The 2D texture object as [configureTexture] leaves it. *)
Definition texture_2d (image : nat) : Texture :=
  mkTexture (Some TEXTURE_2D) LINEAR_MIPMAP_LINEAR LINEAR REPEAT REPEAT
            (<[ (TEXTURE_2D, 0) := mkTexImage RGBA RGBA UNSIGNED_BYTE image ]> ∅) true.

(** The calls [configureTexture] logs for the texture [n] it created. *)
Definition texture_calls (n image : nat) : list Call :=
  [ C_createTexture n;
    C_bindTexture TEXTURE_2D (Some n);
    C_texImage2D TEXTURE_2D 0 RGBA RGBA UNSIGNED_BYTE image;
    C_texParameteri TEXTURE_2D TEXTURE_MIN_FILTER LINEAR_MIPMAP_LINEAR;
    C_texParameteri TEXTURE_2D TEXTURE_MAG_FILTER LINEAR;
    C_texParameteri TEXTURE_2D TEXTURE_WRAP_S REPEAT;
    C_texParameteri TEXTURE_2D TEXTURE_WRAP_T REPEAT;
    C_generateMipmap TEXTURE_2D;
    C_bindTexture TEXTURE_2D None ].

Definition after_configureTexture (image : nat) (w : World) : World :=
  let g := ctx w in
  mkWorld (mkState (activeUnit g) (textures g ++ [texture_2d image])
                   (delete (activeUnit g, TEXTURE_2D) (bindings g))
                   (currentProgram g) (programs g) (lastError g))
          (cubeMap w) (images w)
          (calls w ++ texture_calls (length (textures g)) image).

(** The upload an event leads to: the face target and the image of the
    closure it runs, if it runs one. *)
Definition upload_of (h : list Image) (ev : Event) : option (Z * nat) :=
  match handler h ev with
  | Some (FaceUpload _ face image) => Some (face, image)
  | None => None
  end.

Definition uploads (h : list Image) (evs : list Event) : list (Z * nat) :=
  omap (upload_of h) evs.

(** The WebGL call of a closure, on the context and in the log. *)
Definition upload (g : state) (fi : Z * nat) : state :=
  texImage2D fi.1 0 RGB RGB UNSIGNED_BYTE fi.2 g.
Definition upload_call (fi : Z * nat) : Call :=
  C_texImage2D fi.1 0 RGB RGB UNSIGNED_BYTE fi.2.

(** The face image a closure stores, and the face images of a texture
    after a sequence of uploads. *)
Definition face_entry (image : nat) : TexImage :=
  mkTexImage RGB RGB UNSIGNED_BYTE image.
Definition store_face (m : gmap (Z * Z) TexImage) (fi : Z * nat) : gmap (Z * Z) TexImage :=
  <[(fi.1, 0) := face_entry fi.2]> m.
Definition set_tex_images (m : gmap (Z * Z) TexImage) (o : Texture) : Texture :=
  mkTexture (tex_target o) (tex_min_filter o) (tex_mag_filter o) (tex_wrap_s o) (tex_wrap_t o)
            m (tex_mipmaps o).

(** The face target of entry [k] of [faces]. *)
Definition face_at (k : nat) : Z :=
  match faces !! k with
  | Some f => f.2
  | None => 0
  end.

(** The events of the six images, the first at index [n0]: image [k]
    loads when [ok k] holds and fails otherwise. *)
Definition cube_events (ok : nat -> bool) (n0 : nat) : list Event :=
  (fun k => if ok k then load (n0 + k)%nat else error (n0 + k)%nat) <$> seq 0 6.

(** The uploads these events lead to, in the order of [faces]. *)
Definition cube_uploads (ok : nat -> bool) (n0 : nat) : list (Z * nat) :=
  (fun k => (face_at k, (n0 + k)%nat)) <$> filter (fun k => ok k = true) (seq 0 6).

(** The world a computation ends in, whether it returns or throws. *)
Definition world_of {A} (r : Res A) : World :=
  match r with
  | Ok _ w => w
  | Throw _ w => w
  end.

(** The cubemap texture of a world: the object the global [cubeMap] names. *)
Definition cubeMap_texture (w : World) : option Texture :=
  t ← cubeMap w; textures (ctx w) !! t.

(** What sampling a texture depends on: its two filters, and whether
    [generateMipmap] has filled its mipmap levels. *)
Definition tex_sampling (o : Texture) : Z * Z * bool :=
  (tex_min_filter o, tex_mag_filter o, tex_mipmaps o).

Definition is_generateMipmap (c : Call) : bool :=
  match c with
  | C_generateMipmap _ => true
  | _ => false
  end.

(** Unbinding the cubemap target, as a logged call. *)
Definition is_cube_unbind (c : Call) : bool :=
  match c with
  | C_bindTexture target None => target =? TEXTURE_CUBE_MAP
  | _ => false
  end.

(** The calls a computation adds to the log of [w]. *)
Definition new_calls {A} (c : JS A) (w : World) : list Call :=
  drop (length (calls w)) (calls (world_of (c w))).

#[global] Instance Event_eq_dec : EqDecision Event.
Proof. solve_decision. Defined.

(** Every binding names a texture of the context. *)
Definition bindings_wf (g : state) : Prop :=
  ∀ k t, bindings g !! k = Some t → (t < length (textures g))%nat.

(** The error [configureCubeMap] can raise: the program is not linked in
    this context, or it has the uniform cubeSampler without being the
    program in use. *)
Definition cube_uniform_fails (p : nat) (g : state) : bool :=
  match programs g !! p with
  | None => true
  | Some us =>
      bool_decide (is_Some (us !! "cubeSampler"%string))
      && negb (bool_decide (currentProgram g = Some p))
  end.


End outcomes.

(** ** Facts about the context *)

Section context_facts.
Import gl.

Lemma set_error_frame e g :
  activeUnit (set_error e g) = activeUnit g ∧
  textures (set_error e g) = textures g ∧
  bindings (set_error e g) = bindings g ∧
  currentProgram (set_error e g) = currentProgram g ∧
  programs (set_error e g) = programs g.
Proof. unfold set_error. by destruct (lastError g =? NO_ERROR). Qed.

Lemma set_error_idem e g : set_error e (set_error e g) = set_error e g.
Proof.
  unfold set_error. destruct (lastError g =? NO_ERROR) eqn:E; simpl; [|by rewrite E].
  by destruct (e =? NO_ERROR).
Qed.

Lemma lookup_snoc_new {A} (l : list A) (x : A) : (l ++ [x]) !! length l = Some x.
Proof. by apply list_lookup_middle. Qed.

Lemma insert_snoc_new {A} (l : list A) (x y : A) : <[length l := y]> (l ++ [x]) = l ++ [y].
Proof. replace (length l) with (length l + 0)%nat by lia. by rewrite insert_app_r. Qed.

Lemma bound_texture_bound_state u ts o target bs cp ps er :
  bound_texture (bound_state u ts o target bs cp ps er) target = Some (length ts, o).
Proof.
  unfold bound_texture, bound_state. cbn [bindings activeUnit textures].
  by rewrite lookup_insert_eq, lookup_snoc_new.
Qed.

Lemma set_textures_bound_state u ts o o' target bs cp ps er :
  set_textures (<[length ts := o']> (textures (bound_state u ts o target bs cp ps er)))
               (bound_state u ts o target bs cp ps er)
  = bound_state u ts o' target bs cp ps er.
Proof.
  unfold bound_state, set_textures. cbn [bindings activeUnit textures currentProgram programs lastError].
  by rewrite insert_snoc_new.
Qed.

Lemma bindTexture_new target u ts bs cp ps er :
  is_bind_target target = true →
  bindTexture target (Some (length ts)) (mkState u (ts ++ [new_texture]) bs cp ps er)
  = bound_state u ts (set_tex_target target new_texture) target bs cp ps er.
Proof.
  intros Ht. unfold bindTexture. rewrite Ht. cbn [negb textures].
  rewrite lookup_snoc_new. cbn [tex_target new_texture].
  unfold bound_state, set_bindings, set_textures.
  cbn [bindings activeUnit textures currentProgram programs lastError].
  by rewrite insert_snoc_new.
Qed.

Lemma bindTexture_null target u ts o bs cp ps er :
  is_bind_target target = true →
  bindTexture target None (bound_state u ts o target bs cp ps er)
  = mkState u (ts ++ [o]) (delete (u, target) bs) cp ps er.
Proof.
  intros Ht. unfold bindTexture. rewrite Ht. cbn [negb].
  unfold bound_state, set_bindings.
  cbn [bindings activeUnit textures currentProgram programs lastError].
  by rewrite delete_insert_eq.
Qed.

Lemma texParameteri_bound_state target pname param u ts o bs cp ps er :
  is_bind_target target = true →
  texParameteri target pname param (bound_state u ts o target bs cp ps er)
  = let g := bound_state u ts o target bs cp ps er in
    let upd (ok : bool) (o' : Texture) :=
      if ok then bound_state u ts o' target bs cp ps er else set_error INVALID_ENUM g in
    if pname =? TEXTURE_MIN_FILTER
    then upd (valid_min_filter param) (set_tex_min_filter param o)
    else if pname =? TEXTURE_MAG_FILTER
    then upd (valid_mag_filter param) (set_tex_mag_filter param o)
    else if pname =? TEXTURE_WRAP_S
    then upd (valid_wrap param) (set_tex_wrap_s param o)
    else if pname =? TEXTURE_WRAP_T
    then upd (valid_wrap param) (set_tex_wrap_t param o)
    else set_error INVALID_ENUM g.
Proof.
  intros Ht. unfold texParameteri. rewrite Ht, bound_texture_bound_state.
  cbn [negb]. cbv zeta. by rewrite !set_textures_bound_state.
Qed.

Lemma texParameteri_min_filter target param u ts o bs cp ps er :
  is_bind_target target = true → valid_min_filter param = true →
  texParameteri target TEXTURE_MIN_FILTER param (bound_state u ts o target bs cp ps er)
  = bound_state u ts (set_tex_min_filter param o) target bs cp ps er.
Proof. intros Ht Hv. rewrite texParameteri_bound_state by done. cbv zeta. by rewrite Hv. Qed.

Lemma texParameteri_mag_filter target param u ts o bs cp ps er :
  is_bind_target target = true → valid_mag_filter param = true →
  texParameteri target TEXTURE_MAG_FILTER param (bound_state u ts o target bs cp ps er)
  = bound_state u ts (set_tex_mag_filter param o) target bs cp ps er.
Proof. intros Ht Hv. rewrite texParameteri_bound_state by done. cbv zeta. by rewrite Hv. Qed.

Lemma texParameteri_wrap_s target param u ts o bs cp ps er :
  is_bind_target target = true → valid_wrap param = true →
  texParameteri target TEXTURE_WRAP_S param (bound_state u ts o target bs cp ps er)
  = bound_state u ts (set_tex_wrap_s param o) target bs cp ps er.
Proof. intros Ht Hv. rewrite texParameteri_bound_state by done. cbv zeta. by rewrite Hv. Qed.

Lemma texParameteri_wrap_t target param u ts o bs cp ps er :
  is_bind_target target = true → valid_wrap param = true →
  texParameteri target TEXTURE_WRAP_T param (bound_state u ts o target bs cp ps er)
  = bound_state u ts (set_tex_wrap_t param o) target bs cp ps er.
Proof. intros Ht Hv. rewrite texParameteri_bound_state by done. cbv zeta. by rewrite Hv. Qed.

Lemma texImage2D_bound_state target bp level ifmt fmt ty image u ts o bs cp ps er :
  image_binding_point target = Some bp → 0 ≤ level →
  texImage2D target level ifmt fmt ty image (bound_state u ts o bp bs cp ps er)
  = bound_state u ts (set_tex_image (target, level) (mkTexImage ifmt fmt ty image) o)
                bp bs cp ps er.
Proof.
  intros Hbp Hl. unfold texImage2D. rewrite Hbp, bound_texture_bound_state.
  destruct (Z.ltb_spec level 0) as [?|_]; [lia|].
  by rewrite set_textures_bound_state.
Qed.

Lemma generateMipmap_bound_state target u ts o bs cp ps er :
  is_bind_target target = true → base_complete target o = true →
  generateMipmap target (bound_state u ts o target bs cp ps er)
  = bound_state u ts (set_tex_mipmaps true o) target bs cp ps er.
Proof.
  intros Ht Hc. unfold generateMipmap. rewrite Ht, bound_texture_bound_state, Hc.
  cbn [negb]. by rewrite set_textures_bound_state.
Qed.

Lemma cube_setup_eq g :
  texParameteri TEXTURE_CUBE_MAP TEXTURE_MIN_FILTER LINEAR
    (texParameteri TEXTURE_CUBE_MAP TEXTURE_MAG_FILTER LINEAR
       (bindTexture TEXTURE_CUBE_MAP (Some (length (textures g)))
          (createTexture (activeTexture TEXTURE0 g)).2))
  = cube_setup g.
Proof.
  destruct g as [u ts bs cp ps er].
  change (createTexture (activeTexture TEXTURE0 (mkState u ts bs cp ps er))).2
    with (mkState 0 (ts ++ [new_texture]) bs cp ps er).
  cbn [textures].
  rewrite bindTexture_new by reflexivity.
  rewrite texParameteri_mag_filter, texParameteri_min_filter by reflexivity.
  reflexivity.
Qed.

End context_facts.

(** ** Running the two functions *)

Section runs.
Import gl.

Lemma face_loop_body_run i f g cm h cs :
  faces !! i = Some f →
  face_loop_body i (mkWorld g cm h cs)
  = Ok tt (mkWorld g cm (h ++ [face_image cm (length h) f]) cs).
Proof.
  intros Hf. unfold face_loop_body, bind, index. rewrite Hf.
  cbv [ret new_Image set_src set_onload update_image get_cubeMap ctx cubeMap images calls].
  rewrite lookup_snoc_new, insert_snoc_new, lookup_snoc_new, insert_snoc_new.
  reflexivity.
Qed.

Lemma face_loop_run g cm h cs :
  for_upto 6 face_loop_body (mkWorld g cm h cs)
  = Ok tt (mkWorld g cm (h ++ cube_images cm (length h)) cs).
Proof.
  unfold for_upto. cbn [seq for_each]. unfold bind.
  repeat (erewrite face_loop_body_run by reflexivity).
  cbv [ret]. f_equal. f_equal.
  rewrite <- !app_assoc. f_equal. cbn [app cube_images imap faces].
  rewrite !length_app. cbn [length].
  repeat (f_equal; try lia).
Qed.

Lemma configureCubeMap_run p w :
  configureCubeMap p w = Ok tt (after_configureCubeMap p w).
Proof.
  destruct w as [g cm h cs].
  cbv [configureCubeMap bind gl_activeTexture gl_do gl_createTexture gl_bindTexture
       gl_texParameteri gl_getUniformLocation gl_uniform1i set_cubeMap get_cubeMap
       ctx cubeMap images calls].
  replace (createTexture (activeTexture TEXTURE0 g)).1 with (length (textures g))
    by (by destruct g).
  rewrite cube_setup_eq, face_loop_run.
  unfold after_configureCubeMap, cube_uniform, cube_calls. cbn [ctx images calls].
  by rewrite <- !app_assoc.
Qed.

Lemma configureTexture_run image w :
  configureTexture image w
  = Ok (length (textures (ctx w))) (after_configureTexture image w).
Proof.
  destruct w as [[u ts bs cp ps er] cm h cs].
  cbv [configureTexture bind ret gl_createTexture gl_do gl_bindTexture gl_texImage2D
       gl_texParameteri gl_generateMipmap ctx cubeMap images calls createTexture].
  unfold set_textures.
  cbn [fst snd textures activeUnit bindings currentProgram programs lastError].
  rewrite bindTexture_new by reflexivity.
  rewrite (texImage2D_bound_state _ TEXTURE_2D) by (reflexivity || lia).
  rewrite texParameteri_min_filter, texParameteri_mag_filter, texParameteri_wrap_s,
    texParameteri_wrap_t by reflexivity.
  rewrite generateMipmap_bound_state.
  - rewrite bindTexture_null by reflexivity.
    unfold after_configureTexture, texture_2d, texture_calls.
    cbn [ctx cubeMap images calls textures activeUnit bindings currentProgram programs lastError].
    rewrite <- !app_assoc. cbn [app].
    reflexivity.
  - reflexivity.
  - unfold base_complete. cbn [tex_images set_tex_wrap_t set_tex_wrap_s set_tex_mag_filter
      set_tex_min_filter set_tex_image set_tex_target new_texture].
    change (TEXTURE_2D =? TEXTURE_CUBE_MAP) with false. cbv iota.
    apply bool_decide_eq_true_2. rewrite lookup_insert_eq. by eexists.
Qed.

End runs.

(** ** Image events *)

Section events.
Import gl.

Lemma dispatch_run ev w :
  dispatch ev w
  = Ok tt (mkWorld (foldl upload (ctx w) (uploads (images w) [ev])) (cubeMap w) (images w)
                   (calls w ++ (upload_call <$> uploads (images w) [ev]))).
Proof.
  destruct w as [g cm h cs]. unfold dispatch, uploads.
  cbn [omap list_omap images]. unfold upload_of.
  destruct (handler h ev) as [[c f i]|].
  - reflexivity.
  - cbn [foldl fmap list_fmap ctx cubeMap calls]. by rewrite app_nil_r.
Qed.

Lemma run_events_run evs w :
  run_events evs w
  = Ok tt (mkWorld (foldl upload (ctx w) (uploads (images w) evs)) (cubeMap w) (images w)
                   (calls w ++ (upload_call <$> uploads (images w) evs))).
Proof.
  revert w. induction evs as [|ev evs IH]; intros [g cm h cs].
  - cbn. by rewrite app_nil_r.
  - cbn [run_events]. unfold bind. rewrite dispatch_run, IH.
    cbn [ctx cubeMap images calls]. unfold uploads. cbn [omap list_omap].
    destruct (upload_of h ev) as [fi|]; cbn [foldl fmap list_fmap].
    + by rewrite <- app_assoc.
    + by rewrite app_nil_r.
Qed.

Lemma cube_images_lookup cm n0 k f :
  faces !! k = Some f → cube_images cm n0 !! k = Some (face_image cm (n0 + k) f).
Proof. intros Hf. unfold cube_images. by rewrite list_lookup_imap, Hf. Qed.

Lemma cube_heap_lookup h0 cm k f :
  faces !! k = Some f →
  (h0 ++ cube_images cm (length h0)) !! (length h0 + k)%nat
  = Some (face_image cm (length h0 + k) f).
Proof.
  intros Hf. rewrite lookup_app_r by lia.
  replace (length h0 + k - length h0)%nat with k by lia. by apply cube_images_lookup.
Qed.

Lemma faces_lookup k : (k < 6)%nat → ∃ f, faces !! k = Some f ∧ f.2 = face_at k.
Proof.
  intros Hk. unfold face_at.
  do 6 (destruct k as [|k]; [eexists; split; reflexivity|]). lia.
Qed.

Lemma upload_of_load h0 cm k :
  (k < 6)%nat →
  upload_of (h0 ++ cube_images cm (length h0)) (load (length h0 + k))
  = Some (face_at k, (length h0 + k)%nat).
Proof.
  intros Hk. destruct (faces_lookup k Hk) as (f & Hf & <-).
  unfold upload_of, handler. by rewrite (cube_heap_lookup _ _ _ _ Hf).
Qed.

Lemma upload_of_error h0 cm k :
  (k < 6)%nat →
  upload_of (h0 ++ cube_images cm (length h0)) (error (length h0 + k)) = None.
Proof.
  intros Hk. destruct (faces_lookup k Hk) as (f & Hf & _).
  unfold upload_of, handler. by rewrite (cube_heap_lookup _ _ _ _ Hf).
Qed.

Lemma uploads_cube_events ok h0 cm :
  uploads (h0 ++ cube_images cm (length h0)) (cube_events ok (length h0))
  = cube_uploads ok (length h0).
Proof.
  unfold uploads, cube_events, cube_uploads.
  assert (Hall : Forall (fun k => (k < 6)%nat) (seq 0 6)).
  { apply Forall_forall. intros k Hk%elem_of_seq. lia. }
  induction Hall as [|k l Hk _ IH]; [done|].
  rewrite fmap_cons, filter_cons. cbn [omap list_omap].
  destruct (ok k) eqn:Hok.
  - rewrite upload_of_load by done. rewrite decide_True by done.
    rewrite fmap_cons. f_equal. apply IH.
  - rewrite upload_of_error by done. rewrite decide_False by done.
    apply IH.
Qed.
End events.

(** ** Uploads into the bound cubemap *)

Section uploads.
Import gl.

Lemma cube_face_binding_point f :
  is_cube_face f = true → image_binding_point f = Some TEXTURE_CUBE_MAP.
Proof.
  unfold image_binding_point. intros Hf. rewrite Hf.
  unfold is_cube_face in Hf. apply andb_true_iff in Hf as [H1%Z.leb_le H2%Z.leb_le].
  destruct (Z.eqb_spec f TEXTURE_2D) as [->|]; [|done].
  unfold TEXTURE_CUBE_MAP_POSITIVE_X, TEXTURE_2D in H1. lia.
Qed.

Lemma set_tex_images_id o : set_tex_images (tex_images o) o = o.
Proof. by destruct o. Qed.

Lemma set_textures_id g : set_textures (textures g) g = g.
Proof. by destruct g. Qed.

Lemma bound_texture_lookup g target t o :
  bound_texture g target = Some (t, o) →
  bindings g !! (activeUnit g, target) = Some t ∧ textures g !! t = Some o.
Proof.
  unfold bound_texture. intros H.
  destruct (bindings g !! (activeUnit g, target)) as [t'|]; [|done].
  destruct (textures g !! t') as [o'|] eqn:Ho; [|done]. by simplify_eq.
Qed.

Lemma bound_texture_set g target t o o' :
  bound_texture g target = Some (t, o) →
  bound_texture (set_textures (<[t := o']> (textures g)) g) target = Some (t, o').
Proof.
  intros [Hb Ht]%bound_texture_lookup. unfold bound_texture, set_textures.
  cbn [bindings activeUnit textures]. rewrite Hb.
  rewrite list_lookup_insert_eq; [done|]. by eapply lookup_lt_Some.
Qed.

Lemma bound_texture_set_error g target e :
  bound_texture (set_error e g) target = bound_texture g target.
Proof.
  unfold bound_texture.
  destruct (set_error_frame e g) as (-> & -> & -> & _). done.
Qed.

Lemma upload_bound g t o fi :
  is_cube_face fi.1 = true →
  bound_texture g TEXTURE_CUBE_MAP = Some (t, o) →
  upload g fi
  = set_textures (<[t := set_tex_images (store_face (tex_images o) fi) o]> (textures g)) g.
Proof.
  intros Hf Hb. unfold upload, texImage2D.
  rewrite (cube_face_binding_point _ Hf), Hb. reflexivity.
Qed.

Lemma upload_unbound g fi :
  is_cube_face fi.1 = true →
  bound_texture g TEXTURE_CUBE_MAP = None →
  upload g fi = set_error INVALID_OPERATION g.
Proof.
  intros Hf Hb. unfold upload, texImage2D.
  rewrite (cube_face_binding_point _ Hf), Hb. reflexivity.
Qed.

Lemma uploads_bound us : ∀ g t o,
  Forall (fun fi => is_cube_face fi.1 = true) us →
  bound_texture g TEXTURE_CUBE_MAP = Some (t, o) →
  foldl upload g us
  = set_textures (<[t := set_tex_images (foldl store_face (tex_images o) us) o]> (textures g)) g.
Proof.
  induction us as [|fi us IH]; intros g t o Hall Hb.
  - cbn [foldl]. rewrite set_tex_images_id.
    apply bound_texture_lookup in Hb as [_ Ht].
    by rewrite list_insert_id, set_textures_id.
  - apply Forall_cons in Hall as [Hfi Hall]. cbn [foldl].
    rewrite (upload_bound g t o fi Hfi Hb).
    rewrite (IH _ t _ Hall (bound_texture_set g _ t o _ Hb)).
    unfold set_textures, set_tex_images.
    cbn [textures activeUnit bindings currentProgram programs lastError
         tex_target tex_min_filter tex_mag_filter tex_wrap_s tex_wrap_t tex_images tex_mipmaps].
    by rewrite list_insert_insert_eq.
Qed.

Lemma uploads_unbound us : ∀ g,
  Forall (fun fi => is_cube_face fi.1 = true) us →
  bound_texture g TEXTURE_CUBE_MAP = None →
  foldl upload g us = match us with [] => g | _ => set_error INVALID_OPERATION g end.
Proof.
  induction us as [|fi us IH]; intros g Hall Hb; [done|].
  apply Forall_cons in Hall as [Hfi Hall]. cbn [foldl].
  rewrite (upload_unbound g fi Hfi Hb), IH; [|done|by rewrite bound_texture_set_error].
  destruct us; [done|]. apply set_error_idem.
Qed.

Lemma store_face_commute m fi1 fi2 :
  fi1.1 ≠ fi2.1 →
  store_face (store_face m fi1) fi2 = store_face (store_face m fi2) fi1.
Proof. intros Hne. unfold store_face. apply insert_insert_ne. congruence. Qed.

Lemma store_faces_perm us1 us2 :
  us1 ≡ₚ us2 → ∀ m, NoDup us1.*1 →
  foldl store_face m us1 = foldl store_face m us2.
Proof.
  induction 1 as [|x l1 l2 _ IH|x y l|l1 l2 l3 H12 IH1 _ IH2]; intros m Hnd.
  - done.
  - cbn [foldl]. apply IH. rewrite fmap_cons in Hnd. by apply NoDup_cons in Hnd as [_ ?].
  - cbn [foldl]. rewrite store_face_commute; [done|].
    rewrite !fmap_cons in Hnd. apply NoDup_cons in Hnd as [Hx _].
    intros Heq. apply Hx. rewrite Heq. apply list_elem_of_here.
  - rewrite IH1 by done. apply IH2. by rewrite <- H12.
Qed.

Lemma store_faces_lookup_notin us : ∀ m f,
  f ∉ us.*1 → foldl store_face m us !! (f, 0) = m !! (f, 0).
Proof.
  induction us as [|fi us IH]; intros m f Hf; [done|].
  rewrite fmap_cons in Hf. apply not_elem_of_cons in Hf as [Hne Hf].
  cbn [foldl]. rewrite IH by done. unfold store_face.
  apply lookup_insert_ne. congruence.
Qed.

Lemma store_faces_lookup_in us : ∀ m f i,
  NoDup us.*1 → (f, i) ∈ us → foldl store_face m us !! (f, 0) = Some (face_entry i).
Proof.
  induction us as [|fi us IH]; intros m f i Hnd Hin.
  - by apply elem_of_nil in Hin.
  - rewrite fmap_cons in Hnd. apply NoDup_cons in Hnd as [Hfi Hnd].
    cbn [foldl]. apply elem_of_cons in Hin as [<-|Hin].
    + rewrite store_faces_lookup_notin by done. unfold store_face. apply lookup_insert_eq.
    + by apply IH.
Qed.

Lemma uploads_perm us1 us2 g :
  us1 ≡ₚ us2 →
  Forall (fun fi => is_cube_face fi.1 = true) us1 → NoDup us1.*1 →
  foldl upload g us1 = foldl upload g us2.
Proof.
  intros Hperm Hall Hnd.
  assert (Hall2 : Forall (fun fi => is_cube_face fi.1 = true) us2) by (by rewrite <- Hperm).
  destruct (bound_texture g TEXTURE_CUBE_MAP) as [[t o]|] eqn:Hb.
  - rewrite (uploads_bound us1 g t o Hall Hb), (uploads_bound us2 g t o Hall2 Hb).
    by rewrite (store_faces_perm us1 us2 Hperm).
  - rewrite (uploads_unbound us1 g Hall Hb), (uploads_unbound us2 g Hall2 Hb).
    destruct us1, us2; try done.
    + by apply Permutation_nil_cons in Hperm.
    + symmetry in Hperm. by apply Permutation_nil_cons in Hperm.
Qed.
End uploads.

(** ** The six faces after [configureCubeMap] *)

Section cube_faces.
Import gl.

Lemma face_at_cube_face k : (k < 6)%nat → is_cube_face (face_at k) = true.
Proof. intros Hk. do 6 (destruct k as [|k]; [reflexivity|]). lia. Qed.

Lemma face_at_inj k1 k2 :
  (k1 < 6)%nat → (k2 < 6)%nat → face_at k1 = face_at k2 → k1 = k2.
Proof.
  intros H1 H2.
  do 6 (destruct k1 as [|k1]; [do 6 (destruct k2 as [|k2]; [by vm_compute|]); lia|]). lia.
Qed.

Lemma elem_of_cube_uploads ok n0 f i :
  (f, i) ∈ cube_uploads ok n0 ↔
  ∃ k, (k < 6)%nat ∧ ok k = true ∧ f = face_at k ∧ i = (n0 + k)%nat.
Proof.
  unfold cube_uploads. rewrite list_elem_of_fmap. split.
  - intros (k & Heq & [Hok Hk%elem_of_seq]%list_elem_of_filter).
    exists k. simplify_eq. split_and!; [lia|done..].
  - intros (k & Hk & Hok & -> & ->). exists k. split; [done|].
    apply list_elem_of_filter. split; [done|]. apply elem_of_seq. lia.
Qed.

Lemma cube_uploads_faces ok n0 :
  Forall (fun fi => is_cube_face fi.1 = true) (cube_uploads ok n0).
Proof.
  apply Forall_forall. intros [f i] (k & Hk & _ & -> & _)%elem_of_cube_uploads.
  by apply face_at_cube_face.
Qed.

Lemma cube_uploads_NoDup ok n0 : NoDup (cube_uploads ok n0).*1.
Proof.
  unfold cube_uploads. rewrite <- list_fmap_compose.
  apply NoDup_fmap_2_strong; [|apply NoDup_filter, NoDup_seq].
  intros k1 k2 [_ H1%elem_of_seq]%list_elem_of_filter [_ H2%elem_of_seq]%list_elem_of_filter.
  cbn. apply face_at_inj; lia.
Qed.

Lemma cube_uploads_failed ok n0 k :
  (k < 6)%nat → ok k = false → face_at k ∉ (cube_uploads ok n0).*1.
Proof.
  intros Hk Hok ([f i] & Hf & (k' & Hk' & Hok' & -> & _)%elem_of_cube_uploads)%list_elem_of_fmap.
  cbn in Hf. apply face_at_inj in Hf; [|done..]. congruence.
Qed.

Lemma cube_uniform_frame p g :
  activeUnit (cube_uniform p g) = activeUnit g ∧
  textures (cube_uniform p g) = textures g ∧
  bindings (cube_uniform p g) = bindings g ∧
  currentProgram (cube_uniform p g) = currentProgram g.
Proof.
  unfold cube_uniform, getUniformLocation, uniform1i.
  destruct (programs g !! p) as [us|] eqn:Hp; cbn [fst snd].
  - destruct (us !! "cubeSampler"%string); cbn [fst snd]; [|done].
    case_bool_decide; [rewrite Hp; done|].
    destruct (set_error_frame INVALID_OPERATION g) as (? & ? & ? & ? & ?). done.
  - destruct (set_error_frame INVALID_OPERATION g) as (? & ? & ? & ? & ?). done.
Qed.

Lemma bound_after_configureCubeMap p w :
  bound_texture (ctx (after_configureCubeMap p w)) TEXTURE_CUBE_MAP
  = Some (length (textures (ctx w)), cube_texture ∅).
Proof.
  unfold after_configureCubeMap. cbn [ctx]. unfold bound_texture.
  destruct (cube_uniform_frame p (cube_setup (ctx w))) as (-> & -> & -> & _).
  unfold cube_setup. cbn [activeUnit bindings textures].
  by rewrite lookup_insert_eq, lookup_snoc_new.
Qed.

Lemma textures_after_configureCubeMap p w :
  textures (ctx (after_configureCubeMap p w)) = textures (ctx w) ++ [cube_texture ∅].
Proof.
  unfold after_configureCubeMap. cbn [ctx].
  by destruct (cube_uniform_frame p (cube_setup (ctx w))) as (_ & -> & _).
Qed.

(** The context once the events of the six images have run, image [k]
    having loaded when [ok k] holds. *)
Lemma cube_events_run p w ok evs :
  evs ≡ₚ cube_events ok (length (images w)) →
  let w1 := after_configureCubeMap p w in
  uploads (images w1) evs ≡ₚ cube_uploads ok (length (images w)) ∧
  run_events evs w1
  = Ok tt (mkWorld
             (set_textures
                (textures (ctx w)
                 ++ [cube_texture (foldl store_face ∅ (cube_uploads ok (length (images w))))])
                (ctx w1))
             (cubeMap w1) (images w1)
             (calls w1 ++ (upload_call <$> uploads (images w1) evs))).
Proof.
  intros Hperm. cbv zeta.
  assert (Hups : uploads (images (after_configureCubeMap p w)) evs
                 ≡ₚ cube_uploads ok (length (images w))).
  { unfold uploads. rewrite Hperm. unfold after_configureCubeMap. cbn [images].
    by rewrite <- uploads_cube_events with (cm := Some (length (textures (ctx w)))). }
  split; [done|].
  rewrite run_events_run. do 2 f_equal.
  assert (Hall : Forall (fun fi => is_cube_face fi.1 = true)
                        (uploads (images (after_configureCubeMap p w)) evs)).
  { rewrite Hups. apply cube_uploads_faces. }
  rewrite (uploads_bound _ _ _ _ Hall (bound_after_configureCubeMap p w)).
  rewrite (store_faces_perm _ _ (symmetry Hups)) by apply cube_uploads_NoDup.
  rewrite textures_after_configureCubeMap, insert_snoc_new. reflexivity.
Qed.
End cube_faces.

(** ** What the texture loader guarantees *)

Section guarantees.
Import gl.

Lemma new_calls_app {A} (c : JS A) w cs :
  calls (world_of (c w)) = calls w ++ cs → new_calls c w = cs.
Proof. intros H. unfold new_calls. rewrite H. by rewrite drop_app_length. Qed.

(** C1: for every image and every starting state, [configureTexture]
    returns the texture it created and issues exactly these calls, in this
    order: createTexture and bindTexture(TEXTURE_2D, texture), the upload
    of the image, the minification filter LINEAR_MIPMAP_LINEAR, the
    magnification filter LINEAR, the wrap mode REPEAT on S and on T,
    generateMipmap, and last bindTexture(TEXTURE_2D, null). *)
Theorem configureTexture_call_order (image : nat) (w : World) :
  let n := length (textures (ctx w)) in
  ∃ w', configureTexture image w = Ok n w' ∧
        new_calls (configureTexture image) w
        = [ C_createTexture n;
            C_bindTexture TEXTURE_2D (Some n);
            C_texImage2D TEXTURE_2D 0 RGBA RGBA UNSIGNED_BYTE image;
            C_texParameteri TEXTURE_2D TEXTURE_MIN_FILTER LINEAR_MIPMAP_LINEAR;
            C_texParameteri TEXTURE_2D TEXTURE_MAG_FILTER LINEAR;
            C_texParameteri TEXTURE_2D TEXTURE_WRAP_S REPEAT;
            C_texParameteri TEXTURE_2D TEXTURE_WRAP_T REPEAT;
            C_generateMipmap TEXTURE_2D;
            C_bindTexture TEXTURE_2D None ] ∧
        textures (ctx w') !! n = Some (texture_2d image).
Proof.
  cbv zeta. exists (after_configureTexture image w). split_and!.
  - apply configureTexture_run.
  - apply new_calls_app. rewrite configureTexture_run. reflexivity.
  - unfold after_configureTexture. cbn [ctx textures]. apply lookup_snoc_new.
Qed.


Lemma set_error_textures e g : textures (set_error e g) = textures g.
Proof. by destruct (set_error_frame e g) as (_ & -> & _). Qed.

Lemma upload_sampling g fi t :
  tex_sampling <$> textures (upload g fi) !! t = tex_sampling <$> textures g !! t.
Proof.
  unfold upload, texImage2D.
  destruct (image_binding_point fi.1) as [bp|]; [|by rewrite set_error_textures].
  destruct (0 <? 0); [by rewrite set_error_textures|].
  destruct (bound_texture g bp) as [[t' o]|] eqn:Hb; [|by rewrite set_error_textures].
  apply bound_texture_lookup in Hb as [_ Ho]. cbn [set_textures textures].
  destruct (decide (t' = t)) as [->|Hne].
  - rewrite list_lookup_insert_eq by (by eapply lookup_lt_Some). by rewrite Ho.
  - by rewrite list_lookup_insert_ne.
Qed.

Lemma uploads_sampling us : ∀ g t,
  tex_sampling <$> textures (foldl upload g us) !! t = tex_sampling <$> textures g !! t.
Proof.
  induction us as [|fi us IH]; intros g t; [done|].
  cbn [foldl]. by rewrite IH, upload_sampling.
Qed.

Lemma upload_calls_no_mipmap us : existsb is_generateMipmap (upload_call <$> us) = false.
Proof. by induction us. Qed.

Lemma cubeMap_texture_after p w :
  cubeMap_texture (after_configureCubeMap p w) = Some (cube_texture ∅).
Proof.
  unfold cubeMap_texture. rewrite textures_after_configureCubeMap.
  unfold after_configureCubeMap. cbn [cubeMap mbind option_bind]. apply lookup_snoc_new.
Qed.

(** C9: the cubemap [configureCubeMap] creates has the filter LINEAR for
    minification and for magnification and no generated mipmaps, it keeps
    them whatever image events run afterwards, and neither the function
    nor the events call generateMipmap; LINEAR minification reads no
    mipmap level.  The texture [configureTexture] creates has
    LINEAR_MIPMAP_LINEAR minification, which reads mipmap levels, and its
    mipmaps are generated. *)
Theorem cubemap_sampling_without_mipmaps (p : nat) (w : World) (evs : list Event)
    (image : nat) (w' : World) :
  let w1 := world_of (configureCubeMap p w) in
  let w2 := world_of (run_events evs w1) in
  let w3 := world_of (configureTexture image w') in
  tex_sampling <$> cubeMap_texture w1 = Some (LINEAR, LINEAR, false) ∧
  tex_sampling <$> cubeMap_texture w2 = Some (LINEAR, LINEAR, false) ∧
  uses_mipmaps LINEAR = false ∧
  existsb is_generateMipmap (new_calls (configureCubeMap p ;; run_events evs) w) = false ∧
  tex_sampling <$> textures (ctx w3) !! length (textures (ctx w'))
  = Some (LINEAR_MIPMAP_LINEAR, LINEAR, true) ∧
  uses_mipmaps LINEAR_MIPMAP_LINEAR = true ∧
  C_generateMipmap TEXTURE_2D ∈ new_calls (configureTexture image) w'.
Proof.
  cbv zeta. rewrite configureCubeMap_run, configureTexture_run, run_events_run.
  cbn [world_of]. split_and!.
  - by rewrite cubeMap_texture_after.
  - pose proof (cubeMap_texture_after p w) as Hc. unfold cubeMap_texture in *.
    cbn [cubeMap ctx]. destruct (cubeMap (after_configureCubeMap p w)) as [t|]; [|done].
    cbn [mbind option_bind] in *. by rewrite uploads_sampling, Hc.
  - reflexivity.
  - erewrite new_calls_app.
    2:{ unfold bind. rewrite configureCubeMap_run, run_events_run. cbn [world_of calls].
        unfold after_configureCubeMap at 1. cbn [calls]. by rewrite <- app_assoc. }
    rewrite existsb_app, upload_calls_no_mipmap. reflexivity.
  - unfold after_configureTexture. cbn [ctx textures]. by rewrite lookup_snoc_new.
  - reflexivity.
  - erewrite new_calls_app by (rewrite configureTexture_run; reflexivity).
    unfold texture_calls. rewrite !elem_of_cons. tauto.
Qed.

Lemma after_configureCubeMap_unit p w :
  activeUnit (ctx (after_configureCubeMap p w)) = 0 ∧
  bindings (ctx (after_configureCubeMap p w)) !! (0, TEXTURE_CUBE_MAP)
  = Some (length (textures (ctx w))).
Proof.
  unfold after_configureCubeMap. cbn [ctx].
  destruct (cube_uniform_frame p (cube_setup (ctx w))) as (-> & _ & -> & _).
  unfold cube_setup. cbn [activeUnit bindings]. by rewrite lookup_insert_eq.
Qed.

Lemma dispatch_load_cube p w k g :
  (k < 6)%nat →
  let w1 := after_configureCubeMap p w in
  let fi := (face_at k, (length (images w) + k)%nat) in
  dispatch (load (length (images w) + k)) (mkWorld g (cubeMap w1) (images w1) (calls w1))
  = Ok tt (mkWorld (upload g fi) (cubeMap w1) (images w1) (calls w1 ++ [upload_call fi])).
Proof.
  intros Hk. cbv zeta. unfold after_configureCubeMap. cbn [cubeMap images calls].
  rewrite dispatch_run. cbn [ctx cubeMap images calls].
  unfold uploads. cbn [omap list_omap]. rewrite upload_of_load by done. reflexivity.
Qed.

(** C10: [configureTexture] keeps the active unit and leaves TEXTURE_2D
    unbound on it, its last call being bindTexture(TEXTURE_2D, null).
    [configureCubeMap] leaves unit 0 active with the texture it created
    bound to TEXTURE_CUBE_MAP there, and never unbinds it.  The closure
    of face [k] binds nothing: in whatever context [g] it runs, its upload
    goes to the texture bound to TEXTURE_CUBE_MAP on the active unit, and
    raises INVALID_OPERATION when none is; so the cubemap receives the
    face when the binding is still in place and stays empty once the
    target has been unbound. *)
Theorem texture_binding_frame (image : nat) (w' : World) (p : nat) (w : World)
    (k : nat) (g : state) :
  (k < 6)%nat →
  let w2 := world_of (configureTexture image w') in
  let w1 := world_of (configureCubeMap p w) in
  let n := length (textures (ctx w)) in
  let ev := load (length (images w) + k) in
  let fi := (face_at k, (length (images w) + k)%nat) in
  let at_ctx g' := mkWorld g' (cubeMap w1) (images w1) (calls w1) in
  (activeUnit (ctx w2) = activeUnit (ctx w') ∧
   bindings (ctx w2) !! (activeUnit (ctx w2), TEXTURE_2D) = None ∧
   last (new_calls (configureTexture image) w') = Some (C_bindTexture TEXTURE_2D None)) ∧
  (textures (ctx w) !! n = None ∧ cubeMap w1 = Some n ∧
   activeUnit (ctx w1) = 0 ∧
   bindings (ctx w1) !! (0, TEXTURE_CUBE_MAP) = Some n ∧
   existsb is_cube_unbind (new_calls (configureCubeMap p) w) = false) ∧
  (new_calls (dispatch ev) (at_ctx g) = [upload_call fi] ∧
   ctx (world_of (dispatch ev (at_ctx g)))
   = match bound_texture g TEXTURE_CUBE_MAP with
     | Some (t, o) =>
         set_textures (<[t := set_tex_images (store_face (tex_images o) fi) o]> (textures g)) g
     | None => set_error INVALID_OPERATION g
     end) ∧
  textures (ctx (world_of (dispatch ev (at_ctx (ctx w1))))) !! n
  = Some (cube_texture (store_face ∅ fi)) ∧
  textures (ctx (world_of (dispatch ev (at_ctx (bindTexture TEXTURE_CUBE_MAP None (ctx w1)))))) !! n
  = Some (cube_texture ∅).
Proof.
  intros Hk. cbv zeta. rewrite configureTexture_run, configureCubeMap_run. cbn [world_of].
  pose proof (face_at_cube_face k Hk) as Hface.
  split_and!.
  - reflexivity.
  - unfold after_configureTexture. cbn [ctx activeUnit bindings]. apply lookup_delete_eq.
  - erewrite new_calls_app by (rewrite configureTexture_run; reflexivity). reflexivity.
  - apply lookup_ge_None. lia.
  - reflexivity.
  - apply after_configureCubeMap_unit.
  - apply after_configureCubeMap_unit.
  - erewrite new_calls_app by (rewrite configureCubeMap_run; reflexivity). reflexivity.
  - erewrite new_calls_app; [done|]. by rewrite dispatch_load_cube.
  - rewrite dispatch_load_cube by done. cbn [world_of ctx].
    destruct (bound_texture g TEXTURE_CUBE_MAP) as [[t o]|] eqn:Hb.
    + by apply upload_bound.
    + by apply upload_unbound.
  - rewrite dispatch_load_cube by done. cbn [world_of ctx].
    rewrite (upload_bound _ _ _ (face_at k, _) Hface (bound_after_configureCubeMap p w)).
    cbn [set_textures textures]. rewrite textures_after_configureCubeMap, insert_snoc_new.
    apply lookup_snoc_new.
  - rewrite dispatch_load_cube by done. cbn [world_of ctx].
    rewrite upload_unbound; [|done|].
    + rewrite set_error_textures. unfold bindTexture.
      change (negb (is_bind_target TEXTURE_CUBE_MAP)) with false. cbv iota.
      cbn [set_bindings textures]. rewrite textures_after_configureCubeMap.
      apply lookup_snoc_new.
    + unfold bindTexture.
      change (negb (is_bind_target TEXTURE_CUBE_MAP)) with false. cbv iota.
      unfold bound_texture. cbn [set_bindings bindings activeUnit].
      by rewrite lookup_delete_eq.
Qed.

Lemma set_error_programs e g : programs (set_error e g) = programs g.
Proof. by destruct (set_error_frame e g) as (_ & _ & _ & _ & ->). Qed.




Lemma upload_units g fi :
  activeUnit (upload g fi) = activeUnit g ∧ bindings (upload g fi) = bindings g.
Proof.
  unfold upload, texImage2D.
  pose proof (set_error_frame INVALID_ENUM g) as (? & _ & ? & _).
  pose proof (set_error_frame INVALID_VALUE g) as (? & _ & ? & _).
  pose proof (set_error_frame INVALID_OPERATION g) as (? & _ & ? & _).
  destruct (image_binding_point fi.1) as [bp|]; [|done].
  destruct (0 <? 0); [done|].
  by destruct (bound_texture g bp) as [[t o]|].
Qed.


(** The face images of the cubemap once the events of the six images
    have run. *)
Lemma cube_events_faces p w ok evs k f :
  evs ≡ₚ cube_events ok (length (images w)) →
  faces !! k = Some f →
  (fun o => tex_images o !! (f.2, 0))
    <$> cubeMap_texture (world_of (run_events evs (after_configureCubeMap p w)))
  = Some (if ok k then Some (face_entry (length (images w) + k)) else None).
Proof.
  intros Hperm Hf. destruct (cube_events_run p w ok evs Hperm) as [_ ->].
  cbn [world_of]. unfold cubeMap_texture. cbn [cubeMap ctx set_textures textures].
  unfold after_configureCubeMap at 1. cbn [cubeMap mbind option_bind].
  rewrite lookup_snoc_new. cbn [fmap option_fmap option_map cube_texture tex_images].
  f_equal.
  assert (Hk : (k < 6)%nat) by (apply lookup_lt_Some in Hf; exact Hf).
  destruct (faces_lookup k Hk) as (f' & Hf' & Hface). simplify_eq. rewrite Hface.
  destruct (ok k) eqn:Hok.
  - apply store_faces_lookup_in; [apply cube_uploads_NoDup|].
    apply elem_of_cube_uploads. by exists k.
  - rewrite store_faces_lookup_notin by (by apply cube_uploads_failed). apply lookup_empty.
Qed.

(** C2: after [configureCubeMap], let the six load events arrive in any
    order.  The run returns normally; the calls it makes are the six
    uploads, image [k] to face [k], in the order of arrival; image [k]
    carries the name of entry [k] of [faces] and ends up as the level-0
    image of that entry's face of the cubemap; and the context, the
    global and the images at the end are the same for any two orders. *)
Theorem cube_face_uploads_commute (p : nat) (w : World) (evs1 evs2 : list Event)
    (k : nat) (f : string * Z) (g : state) :
  let n0 := length (images w) in
  evs1 ≡ₚ (fun j => load (n0 + j)) <$> seq 0 6 →
  evs2 ≡ₚ (fun j => load (n0 + j)) <$> seq 0 6 →
  faces !! k = Some f →
  let w1 := world_of (configureCubeMap p w) in
  let w2 := world_of (run_events evs1 w1) in
  let w2' := world_of (run_events evs2 w1) in
  (run_events evs1 w1 = Ok tt w2 ∧ run_events evs2 w1 = Ok tt w2') ∧
  new_calls (run_events evs1) w1
    ≡ₚ (fun j => C_texImage2D (face_at j) 0 RGB RGB UNSIGNED_BYTE (n0 + j)) <$> seq 0 6 ∧
  src <$> images w2 !! (n0 + k)%nat = Some f.1 ∧
  (fun o => tex_images o !! (f.2, 0)) <$> cubeMap_texture w2
  = Some (Some (face_entry (n0 + k))) ∧
  (ctx w2 = ctx w2' ∧ cubeMap w2 = cubeMap w2' ∧ images w2 = images w2') ∧
  (let at_ctx := mkWorld g (cubeMap w1) (images w1) (calls w1) in
   ctx (world_of (run_events evs1 at_ctx)) = ctx (world_of (run_events evs2 at_ctx))).
Proof.
  cbv zeta. intros H1 H2 Hf.
  change ((fun j => load (length (images w) + j)) <$> seq 0 6)
    with (cube_events (fun _ => true) (length (images w))) in H1, H2.
  rewrite configureCubeMap_run. cbn [world_of].
  pose proof (cube_events_faces p w _ evs1 k f H1 Hf) as Hface.
  destruct (cube_events_run p w _ evs1 H1) as [Hu1 E1].
  destruct (cube_events_run p w _ evs2 H2) as [Hu2 E2].
  split_and!.
  - by rewrite E1.
  - by rewrite E2.
  - erewrite new_calls_app by (rewrite E1; reflexivity).
    rewrite Hu1. reflexivity.
  - rewrite E1. cbn [world_of images]. unfold after_configureCubeMap. cbn [images].
    by rewrite (cube_heap_lookup _ _ _ _ Hf).
  - exact Hface.
  - rewrite E1, E2. reflexivity.
  - rewrite E1, E2. reflexivity.
  - rewrite E1, E2. reflexivity.
  - rewrite !run_events_run. cbn [world_of ctx images].
    apply uploads_perm.
    + by rewrite Hu1, Hu2.
    + rewrite Hu1. apply cube_uploads_faces.
    + rewrite Hu1. apply cube_uploads_NoDup.
Qed.

(** C3: after [configureCubeMap], let each of the six images either
    load or fail, the events arriving in any order.  No image has an
    error handler, and the error event of a failed image changes nothing
    and throws nothing, in any context.  The whole run returns normally
    and raises no WebGL error; its calls are the uploads of the images
    that loaded, none for an image that failed; the face of image [k]
    holds that image when it loaded and is left without an image when it
    failed. *)
Theorem failed_image_is_silent (p : nat) (w : World) (ok : nat → bool)
    (evs : list Event) (k : nat) (f : string * Z) (g : state) (cs : list Call) :
  let n0 := length (images w) in
  evs ≡ₚ cube_events ok n0 →
  faces !! k = Some f →
  let w1 := world_of (configureCubeMap p w) in
  let w2 := world_of (run_events evs w1) in
  let wg := mkWorld g (cubeMap w1) (images w1) cs in
  onerror <$> images w1 !! (n0 + k)%nat = Some None ∧
  dispatch (error (n0 + k)) wg = Ok tt wg ∧
  run_events evs w1 = Ok tt w2 ∧
  lastError (ctx w2) = lastError (ctx w1) ∧
  new_calls (run_events evs) w1
    ≡ₚ (fun j => C_texImage2D (face_at j) 0 RGB RGB UNSIGNED_BYTE (n0 + j))
         <$> filter (fun j => ok j = true) (seq 0 6) ∧
  (fun o => tex_images o !! (f.2, 0)) <$> cubeMap_texture w2
  = Some (if ok k then Some (face_entry (n0 + k)) else None).
Proof.
  cbv zeta. intros Hperm Hf.
  rewrite configureCubeMap_run. cbn [world_of].
  destruct (cube_events_run p w _ evs Hperm) as [Hu E].
  assert (Hk : (k < 6)%nat) by (apply lookup_lt_Some in Hf; exact Hf).
  split_and!.
  - unfold after_configureCubeMap. cbn [images]. by rewrite (cube_heap_lookup _ _ _ _ Hf).
  - rewrite dispatch_run. cbn [ctx cubeMap images calls]. unfold uploads.
    cbn [omap list_omap]. unfold after_configureCubeMap. cbn [images].
    rewrite upload_of_error by done. cbn [foldl fmap list_fmap]. by rewrite app_nil_r.
  - by rewrite E.
  - rewrite E. reflexivity.
  - erewrite new_calls_app by (rewrite E; reflexivity).
    rewrite Hu. unfold cube_uploads. by rewrite <- list_fmap_compose.
  - by apply cube_events_faces.
Qed.
End guarantees.

(** ** The theorems at concrete inputs *)

Section witnesses.
Import gl.

Lemma cube_face_uploads_commute_witness :
  let evs1 := [load 0; load 1; load 2; load 3; load 4; load 5]%nat in
  let evs2 := [load 5; load 3; load 1; load 0; load 4; load 2]%nat in
  let f := ("./skybox/top.jpg"%string, TEXTURE_CUBE_MAP_POSITIVE_Y) in
  let w1 := world_of (configureCubeMap 0 demo_world) in
  let w2 := world_of (run_events evs1 w1) in
  let w2' := world_of (run_events evs2 w1) in
  let at_ctx := mkWorld demo_ctx (cubeMap w1) (images w1) (calls w1) in
  (evs1 ≡ₚ (fun j => load (0 + j)) <$> seq 0 6) ∧
  (evs2 ≡ₚ (fun j => load (0 + j)) <$> seq 0 6) ∧
  faces !! 2%nat = Some f ∧
  (run_events evs1 w1 = Ok tt w2 ∧ run_events evs2 w1 = Ok tt w2') ∧
  new_calls (run_events evs1) w1
    ≡ₚ (fun j => C_texImage2D (face_at j) 0 RGB RGB UNSIGNED_BYTE (0 + j)) <$> seq 0 6 ∧
  src <$> images w2 !! 2%nat = Some "./skybox/top.jpg"%string ∧
  (fun o => tex_images o !! (TEXTURE_CUBE_MAP_POSITIVE_Y, 0)) <$> cubeMap_texture w2
  = Some (Some (face_entry 2)) ∧
  (ctx w2 = ctx w2' ∧ cubeMap w2 = cubeMap w2' ∧ images w2 = images w2') ∧
  ctx (world_of (run_events evs1 at_ctx)) = ctx (world_of (run_events evs2 at_ctx)).
Proof.
  cbv zeta.
  assert (H1 : [load 0; load 1; load 2; load 3; load 4; load 5]%nat
               ≡ₚ (fun j => load (0 + j)) <$> seq 0 6) by reflexivity.
  assert (H2 : [load 5; load 3; load 1; load 0; load 4; load 2]%nat
               ≡ₚ (fun j => load (0 + j)) <$> seq 0 6).
  { apply (bool_decide_unpack _). by vm_compute. }
  assert (Hf : faces !! 2%nat = Some ("./skybox/top.jpg"%string, TEXTURE_CUBE_MAP_POSITIVE_Y))
    by reflexivity.
  split; [exact H1|]. split; [exact H2|]. split; [exact Hf|].
  exact (cube_face_uploads_commute 0 demo_world _ _ 2 _ demo_ctx H1 H2 Hf).
Defined.

Lemma failed_image_is_silent_witness :
  let ok := fun j => negb (j =? 1)%nat in
  let evs := [load 3; error 1; load 0; load 5; load 2; load 4]%nat in
  let f := ("./skybox/left.jpg"%string, TEXTURE_CUBE_MAP_NEGATIVE_X) in
  let w1 := world_of (configureCubeMap 0 demo_world) in
  let w2 := world_of (run_events evs w1) in
  let wg := mkWorld demo_ctx (cubeMap w1) (images w1) [] in
  evs ≡ₚ cube_events ok 0 ∧
  faces !! 1%nat = Some f ∧
  onerror <$> images w1 !! 1%nat = Some None ∧
  dispatch (error 1) wg = Ok tt wg ∧
  run_events evs w1 = Ok tt w2 ∧
  lastError (ctx w2) = lastError (ctx w1) ∧
  new_calls (run_events evs) w1
    ≡ₚ (fun j => C_texImage2D (face_at j) 0 RGB RGB UNSIGNED_BYTE (0 + j))
         <$> filter (fun j => ok j = true) (seq 0 6) ∧
  (fun o => tex_images o !! (TEXTURE_CUBE_MAP_NEGATIVE_X, 0)) <$> cubeMap_texture w2
  = Some None.
Proof.
  cbv zeta.
  assert (H : [load 3; error 1; load 0; load 5; load 2; load 4]%nat
              ≡ₚ cube_events (fun j => negb (j =? 1)%nat) 0).
  { apply (bool_decide_unpack _). by vm_compute. }
  assert (Hf : faces !! 1%nat = Some ("./skybox/left.jpg"%string, TEXTURE_CUBE_MAP_NEGATIVE_X))
    by reflexivity.
  split; [exact H|]. split; [exact Hf|].
  exact (failed_image_is_silent 0 demo_world _ _ 1 _ demo_ctx [] H Hf).
Defined.

Lemma texture_binding_frame_witness :
  let image := 7%nat in
  let w' := demo_world in
  let p := 0%nat in
  let w := demo_world in
  let k := 0%nat in
  let g := demo_ctx in
  let w2 := world_of (configureTexture image w') in
  let w1 := world_of (configureCubeMap p w) in
  let n := length (textures (ctx w)) in
  let ev := load (length (images w) + k) in
  let fi := (face_at k, (length (images w) + k)%nat) in
  let at_ctx g' := mkWorld g' (cubeMap w1) (images w1) (calls w1) in
  (k < 6)%nat ∧
  (activeUnit (ctx w2) = activeUnit (ctx w') ∧
   bindings (ctx w2) !! (activeUnit (ctx w2), TEXTURE_2D) = None ∧
   last (new_calls (configureTexture image) w') = Some (C_bindTexture TEXTURE_2D None)) ∧
  (textures (ctx w) !! n = None ∧ cubeMap w1 = Some n ∧
   activeUnit (ctx w1) = 0 ∧
   bindings (ctx w1) !! (0, TEXTURE_CUBE_MAP) = Some n ∧
   existsb is_cube_unbind (new_calls (configureCubeMap p) w) = false) ∧
  (new_calls (dispatch ev) (at_ctx g) = [upload_call fi] ∧
   ctx (world_of (dispatch ev (at_ctx g)))
   = match bound_texture g TEXTURE_CUBE_MAP with
     | Some (t, o) =>
         set_textures (<[t := set_tex_images (store_face (tex_images o) fi) o]> (textures g)) g
     | None => set_error INVALID_OPERATION g
     end) ∧
  textures (ctx (world_of (dispatch ev (at_ctx (ctx w1))))) !! n
  = Some (cube_texture (store_face ∅ fi)) ∧
  textures (ctx (world_of (dispatch ev (at_ctx (bindTexture TEXTURE_CUBE_MAP None (ctx w1)))))) !! n
  = Some (cube_texture ∅).
Proof.
  cbv zeta. split; [lia|].
  exact (texture_binding_frame 7 demo_world 0 demo_world 0 demo_ctx (Nat.lt_0_succ 5)).
Defined.
End witnesses.

(** ** The functions at concrete inputs *)

Section examples.
Import gl.

Example configureCubeMap_demo :
  let w1 := world_of (configureCubeMap 0 demo_world) in
  calls w1
  = [ C_activeTexture TEXTURE0; C_createTexture 0;
      C_bindTexture TEXTURE_CUBE_MAP (Some 0%nat);
      C_texParameteri TEXTURE_CUBE_MAP TEXTURE_MAG_FILTER LINEAR;
      C_texParameteri TEXTURE_CUBE_MAP TEXTURE_MIN_FILTER LINEAR;
      C_getUniformLocation 0 "cubeSampler";
      C_uniform1i (Some (0%nat, "cubeSampler"%string)) 0 ] ∧
  uniform_value (ctx demo_world) 0 "cubeSampler" = Some 5 ∧
  uniform_value (ctx w1) 0 "cubeSampler" = Some 0 ∧
  activeUnit (ctx demo_world) = 3 ∧ activeUnit (ctx w1) = 0 ∧
  lastError (ctx w1) = NO_ERROR ∧
  length (images w1) = 6%nat.
Proof. cbv zeta. split_and!; by vm_compute. Qed.

Example configureTexture_demo :
  configureTexture 7 demo_world = Ok 0%nat (after_configureTexture 7 demo_world) ∧
  textures (ctx (after_configureTexture 7 demo_world)) = [texture_2d 7] ∧
  lastError (ctx (after_configureTexture 7 demo_world)) = NO_ERROR.
Proof. split_and!; by vm_compute. Qed.

(** A fresh texture samples with mipmaps until its minification filter
    is set. *)
Example new_texture_uses_mipmaps : uses_mipmaps (tex_min_filter new_texture) = true.
Proof. reflexivity. Qed.

(** Reading past the end of [faces] throws. *)
Example index_past_faces : index faces 6 demo_world = Throw TypeError demo_world.
Proof. reflexivity. Qed.

(** A load event that arrives while another unit is active, with no
    cubemap bound there, uploads nothing and raises INVALID_OPERATION. *)
Example load_on_other_unit :
  let w1 := world_of (configureCubeMap 0 demo_world) in
  let w2 := world_of ((gl_activeTexture (TEXTURE0 + 1) ;; dispatch (load 2)) w1) in
  lastError (ctx w2) = INVALID_OPERATION ∧ textures (ctx w2) = textures (ctx w1).
Proof. cbv zeta. split; by vm_compute. Qed.

End examples.

(** ** Further properties of the two functions *)

Section further.
Import gl.

(** X1: whatever state it starts from, [configureTexture] raises no
    WebGL error and throws nothing; it appends one texture, the one it
    returns, and clears the TEXTURE_2D binding of the active unit, and
    leaves every other texture and binding, the active unit, the programs
    and their uniforms, the global [cubeMap] and the images as they
    were. *)
Theorem configureTexture_frame (image : nat) (w : World) :
  let n := length (textures (ctx w)) in
  ∃ w', configureTexture image w = Ok n w' ∧
        textures (ctx w) !! n = None ∧
        textures (ctx w') = textures (ctx w) ++ [texture_2d image] ∧
        bindings (ctx w') = delete (activeUnit (ctx w), TEXTURE_2D) (bindings (ctx w)) ∧
        lastError (ctx w') = lastError (ctx w) ∧
        activeUnit (ctx w') = activeUnit (ctx w) ∧
        currentProgram (ctx w') = currentProgram (ctx w) ∧
        programs (ctx w') = programs (ctx w) ∧
        cubeMap w' = cubeMap w ∧
        images w' = images w.
Proof.
  cbv zeta. exists (after_configureTexture image w).
  split; [apply configureTexture_run|].
  split; [apply lookup_ge_None; lia|]. by split_and!.
Qed.

(** X2: two calls of [configureTexture] in a row return two different
    textures, the next two free names; each holds its own image with its
    mipmaps generated, and the second call leaves the first texture as
    the first call made it. *)
Theorem configureTexture_twice (a b : nat) (w : World) :
  let n := length (textures (ctx w)) in
  let r := (ta <- configureTexture a ;; tb <- configureTexture b ;; ret (ta, tb)) w in
  ∃ w', r = Ok (n, S n) w' ∧
        textures (ctx w') = textures (ctx w) ++ [texture_2d a; texture_2d b] ∧
        textures (ctx w') !! n = Some (texture_2d a) ∧
        textures (ctx w') !! S n = Some (texture_2d b) ∧
        bindings (ctx w') !! (activeUnit (ctx w'), TEXTURE_2D) = None ∧
        lastError (ctx w') = lastError (ctx w).
Proof.
  cbv zeta. unfold bind. rewrite configureTexture_run, configureTexture_run.
  eexists. split.
  { unfold ret. f_equal. f_equal. unfold after_configureTexture. cbn [ctx textures].
    rewrite length_app. cbn [length]. lia. }
  unfold after_configureTexture. cbn [ctx textures bindings activeUnit lastError].
  rewrite <- app_assoc. cbn [app]. split_and!.
  - reflexivity.
  - by rewrite lookup_app_r, Nat.sub_diag by lia.
  - rewrite lookup_app_r by lia. by replace (S _ - _)%nat with 1%nat by lia.
  - apply lookup_delete_eq.
  - reflexivity.
Qed.

Lemma upload_length g fi : length (textures (upload g fi)) = length (textures g).
Proof.
  unfold upload, texImage2D.
  destruct (image_binding_point fi.1) as [bp|]; [|by rewrite set_error_textures].
  destruct (0 <? 0); [by rewrite set_error_textures|].
  destruct (bound_texture g bp) as [[t o]|]; [|by rewrite set_error_textures].
  cbn [set_textures textures]. apply length_insert.
Qed.

Lemma uploads_length us : ∀ g, length (textures (foldl upload g us)) = length (textures g).
Proof.
  induction us as [|fi us IH]; intros g; [done|].
  cbn [foldl]. by rewrite IH, upload_length.
Qed.

Lemma set_error_mkState e u ts bs cp ps er :
  set_error e (mkState u ts bs cp ps er)
  = mkState u ts bs cp ps (if er =? NO_ERROR then e else er).
Proof. unfold set_error. cbn [lastError]. by destruct (er =? NO_ERROR). Qed.

Lemma bindings_wf_invariant_demo :
  bindings_wf (ctx (world_of (configureCubeMap 0 demo_world))).
Proof.
  intros k t. rewrite configureCubeMap_run. cbn [world_of].
  rewrite textures_after_configureCubeMap.
  unfold after_configureCubeMap. cbn [ctx].
  destruct (cube_uniform_frame 0 (cube_setup (ctx demo_world))) as (_ & _ & -> & _).
  unfold cube_setup. cbn [bindings demo_world ctx demo_ctx textures app length].
  destruct (decide ((0, TEXTURE_CUBE_MAP) = k)) as [<-|Hne].
  - rewrite lookup_insert_eq. intros [= <-]. lia.
  - rewrite lookup_insert_ne by done. by rewrite lookup_empty.
Qed.

(** Uploading a face after [configureTexture] reaches the same context
    as uploading it before. *)
Lemma upload_after_configureTexture image g cm h cs fi :
  bindings_wf g → is_cube_face fi.1 = true →
  upload (ctx (after_configureTexture image (mkWorld g cm h cs))) fi
  = ctx (after_configureTexture image (mkWorld (upload g fi) cm h cs)).
Proof.
  intros Hwf Hf. unfold after_configureTexture. cbn [ctx].
  destruct (upload_units g fi) as [-> ->].
  destruct g as [u ts bs cp ps er]. cbn [activeUnit textures bindings currentProgram programs lastError].
  destruct (bound_texture (mkState u ts bs cp ps er) TEXTURE_CUBE_MAP) as [[t o]|] eqn:Hb.
  - pose proof (bound_texture_lookup _ _ _ _ Hb) as [Hbt Ht].
    cbn [bindings activeUnit textures] in Hbt, Ht.
    rewrite (upload_bound (mkState u ts bs cp ps er) t o fi Hf Hb).
    assert (Hb' : bound_texture (mkState u (ts ++ [texture_2d image])
                                         (delete (u, TEXTURE_2D) bs) cp ps er) TEXTURE_CUBE_MAP
                  = Some (t, o)).
    { unfold bound_texture. cbn [bindings activeUnit textures].
      rewrite lookup_delete_ne by (intros [=]). rewrite Hbt.
      rewrite lookup_app_l by (by eapply lookup_lt_Some). by rewrite Ht. }
    rewrite (upload_bound _ t o fi Hf Hb').
    cbn [set_textures textures activeUnit bindings currentProgram programs lastError].
    rewrite insert_app_l by (by eapply lookup_lt_Some). reflexivity.
  - assert (Hb' : bound_texture (mkState u (ts ++ [texture_2d image])
                                         (delete (u, TEXTURE_2D) bs) cp ps er) TEXTURE_CUBE_MAP
                  = None).
    { unfold bound_texture in *. cbn [bindings activeUnit textures] in *.
      rewrite lookup_delete_ne by (intros [=]).
      destruct (bs !! (u, TEXTURE_CUBE_MAP)) as [t|] eqn:Hbt; [|done].
      apply Hwf in Hbt. cbn [textures] in Hbt.
      apply lookup_lt_is_Some_2 in Hbt as [o Ho]. by rewrite Ho in Hb. }
    rewrite (upload_unbound _ fi Hf Hb), (upload_unbound _ fi Hf Hb'), !set_error_mkState.
    reflexivity.
Qed.

(** X4: [configureTexture] commutes with the load event of a cubemap
    face: when every binding names an existing texture and the event's
    closure, if any, uploads to a cubemap face, running the event before
    or after [configureTexture] gives the same texture name, the same
    context, the same global and the same images; only the order of the
    logged calls differs. *)
Theorem configureTexture_commutes_with_face_load (image : nat) (ev : Event) (w : World) :
  bindings_wf (ctx w) →
  match upload_of (images w) ev with
  | Some fi => is_cube_face fi.1
  | None => true
  end = true →
  let before := (dispatch ev ;; configureTexture image) w in
  let after := (t <- configureTexture image ;; dispatch ev ;; ret t) w in
  ∃ wb wa, before = Ok (length (textures (ctx w))) wb ∧
           after = Ok (length (textures (ctx w))) wa ∧
           ctx wb = ctx wa ∧ cubeMap wb = cubeMap wa ∧ images wb = images wa ∧
           calls wb ≡ₚ calls wa.
Proof.
  intros Hwf Hface. cbv zeta. unfold bind, ret.
  rewrite dispatch_run, configureTexture_run, configureTexture_run, dispatch_run.
  cbn [ctx]. rewrite uploads_length.
  change (images (after_configureTexture image w)) with (images w).
  do 2 eexists. split; [reflexivity|]. split; [reflexivity|].
  destruct w as [g cm h cs]. cbn [ctx cubeMap images calls] in *.
  unfold uploads. cbn [omap list_omap].
  destruct (upload_of h ev) as [fi|]; cbn [foldl fmap list_fmap].
  - split_and!.
    + by rewrite upload_after_configureTexture.
    + reflexivity.
    + reflexivity.
    + unfold after_configureTexture. cbn [calls ctx]. rewrite upload_length.
      rewrite <- !app_assoc. apply Permutation_app_head. apply Permutation_app_comm.
  - split_and!; try reflexivity.
    unfold after_configureTexture. cbn [calls ctx]. by rewrite !app_nil_r.
Qed.

Lemma configureTexture_commutes_with_face_load_witness :
  let w := world_of (configureCubeMap 0 demo_world) in
  let before := (dispatch (load 2) ;; configureTexture 7) w in
  let after := (t <- configureTexture 7 ;; dispatch (load 2) ;; ret t) w in
  bindings_wf (ctx w) ∧
  match upload_of (images w) (load 2) with
  | Some fi => is_cube_face fi.1
  | None => true
  end = true ∧
  ∃ wb wa, before = Ok (length (textures (ctx w))) wb ∧
           after = Ok (length (textures (ctx w))) wa ∧
           ctx wb = ctx wa ∧ cubeMap wb = cubeMap wa ∧ images wb = images wa ∧
           calls wb ≡ₚ calls wa.
Proof.
  cbv zeta.
  assert (H1 : bindings_wf (ctx (world_of (configureCubeMap 0 demo_world)))).
  { apply (bindings_wf_invariant_demo). }
  assert (H2 : match upload_of (images (world_of (configureCubeMap 0 demo_world))) (load 2) with
               | Some fi => is_cube_face fi.1
               | None => true
               end = true) by (by vm_compute).
  split; [exact H1|]. split; [exact H2|].
  exact (configureTexture_commutes_with_face_load 7 (load 2) _ H1 H2).
Defined.

Lemma lastError_set_error e g :
  lastError (set_error e g) = if lastError g =? NO_ERROR then e else lastError g.
Proof. unfold set_error. by destruct (lastError g =? NO_ERROR). Qed.

Lemma lastError_cube_uniform p g :
  lastError (cube_uniform p g)
  = if cube_uniform_fails p g && (lastError g =? NO_ERROR)
    then INVALID_OPERATION else lastError g.
Proof.
  unfold cube_uniform, cube_uniform_fails, getUniformLocation, uniform1i.
  destruct (programs g !! p) as [us|] eqn:Hp; cbn [fst snd].
  - destruct (us !! "cubeSampler"%string) as [v|] eqn:Hu; cbn [fst snd].
    + rewrite (bool_decide_eq_true_2 (is_Some (Some v))) by eauto.
      destruct (bool_decide (currentProgram g = Some p)); cbn [negb andb].
      * by rewrite Hp.
      * apply lastError_set_error.
    + by rewrite (bool_decide_eq_false_2 (is_Some None)) by (by intros [??]).
  - cbn [andb]. apply lastError_set_error.
Qed.

Lemma cube_images_length cm n0 : length (cube_images cm n0) = 6%nat.
Proof. unfold cube_images. by rewrite length_imap. Qed.

(** X5: [configureCubeMap] always returns normally.  It records
    INVALID_OPERATION, when no earlier error is pending, exactly when the
    program is not linked in the context or has the uniform cubeSampler
    without being the program in use; a program without that uniform is
    accepted silently, the null location being ignored.  In every case
    the cubemap is created with its filters set and no face image, and
    the six images are allocated. *)
Theorem configureCubeMap_error_flag (p : nat) (w : World) :
  let w1 := world_of (configureCubeMap p w) in
  configureCubeMap p w = Ok tt w1 ∧
  lastError (ctx w1)
  = (if cube_uniform_fails p (ctx w) && (lastError (ctx w) =? NO_ERROR)
     then INVALID_OPERATION else lastError (ctx w)) ∧
  cubeMap_texture w1 = Some (cube_texture ∅) ∧
  length (images w1) = (length (images w) + 6)%nat.
Proof.
  cbv zeta. rewrite configureCubeMap_run. cbn [world_of]. split_and!.
  - reflexivity.
  - unfold after_configureCubeMap. cbn [ctx]. by rewrite lastError_cube_uniform.
  - apply cubeMap_texture_after.
  - unfold after_configureCubeMap. cbn [images].
    by rewrite length_app, cube_images_length.
Qed.

(** X8: besides the error flag, [configureCubeMap] changes the context
    in three places only: it appends the cubemap, whatever textures
    existed staying as they were; it makes unit 0 active and replaces what
    was bound to TEXTURE_CUBE_MAP there, every other binding staying; and
    it sets the one uniform cubeSampler of [p] to 0 when [p] is linked,
    has that uniform and is in use, the uniforms staying as they were
    otherwise.  The program in use is not changed. *)
Theorem configureCubeMap_frame (p : nat) (w : World) :
  let w1 := world_of (configureCubeMap p w) in
  let g := ctx w in
  textures (ctx w1) = textures g ++ [cube_texture ∅] ∧
  activeUnit (ctx w1) = 0 ∧
  bindings (ctx w1) = <[(0, TEXTURE_CUBE_MAP) := length (textures g)]> (bindings g) ∧
  currentProgram (ctx w1) = currentProgram g ∧
  programs (ctx w1)
  = match programs g !! p with
    | Some us =>
        if bool_decide (is_Some (us !! "cubeSampler"%string))
           && bool_decide (currentProgram g = Some p)
        then <[p := <["cubeSampler"%string := 0]> us]> (programs g)
        else programs g
    | None => programs g
    end.
Proof.
  cbv zeta. rewrite configureCubeMap_run. cbn [world_of].
  rewrite textures_after_configureCubeMap.
  unfold after_configureCubeMap. cbn [ctx].
  destruct (cube_uniform_frame p (cube_setup (ctx w))) as (-> & _ & -> & ->).
  split_and!; try reflexivity.
  unfold cube_uniform, getUniformLocation, uniform1i.
  change (programs (cube_setup (ctx w))) with (programs (ctx w)).
  change (currentProgram (cube_setup (ctx w))) with (currentProgram (ctx w)).
  destruct (programs (ctx w) !! p) as [us|] eqn:Hp; cbn [fst snd].
  - destruct (us !! "cubeSampler"%string) as [v|] eqn:Hu; cbn [fst snd].
    + rewrite (bool_decide_eq_true_2 (is_Some (Some v))) by eauto. cbn [andb].
      change (currentProgram (cube_setup (ctx w))) with (currentProgram (ctx w)).
      destruct (bool_decide (currentProgram (ctx w) = Some p)).
      * change (programs (cube_setup (ctx w))) with (programs (ctx w)).
        rewrite Hp. reflexivity.
      * by rewrite set_error_programs.
    + by rewrite (bool_decide_eq_false_2 (is_Some None)) by (by intros [??]).
  - by rewrite set_error_programs.
Qed.

(** X6: once the events of the six images have run, in any order, the
    cubemap has a level-0 image on every one of its six faces exactly when
    all six images loaded; one failed image leaves it incomplete. *)
Theorem cubemap_complete_iff_all_loaded (p : nat) (w : World) (ok : nat → bool)
    (evs : list Event) :
  evs ≡ₚ cube_events ok (length (images w)) →
  let w2 := world_of (run_events evs (world_of (configureCubeMap p w))) in
  base_complete TEXTURE_CUBE_MAP <$> cubeMap_texture w2 = Some (forallb ok (seq 0 6)).
Proof.
  intros Hperm. cbv zeta. rewrite configureCubeMap_run. cbn [world_of].
  pose proof (fun k f => cube_events_faces p w ok evs k f Hperm) as Hfaces.
  pose proof (Hfaces 0%nat _ eq_refl) as H0. pose proof (Hfaces 1%nat _ eq_refl) as H1.
  pose proof (Hfaces 2%nat _ eq_refl) as H2. pose proof (Hfaces 3%nat _ eq_refl) as H3.
  pose proof (Hfaces 4%nat _ eq_refl) as H4. pose proof (Hfaces 5%nat _ eq_refl) as H5.
  clear Hfaces.
  destruct (cubeMap_texture _) as [o|]; [|done].
  cbn [fmap option_fmap option_map snd] in *.
  injection H0 as H0. injection H1 as H1. injection H2 as H2.
  injection H3 as H3. injection H4 as H4. injection H5 as H5.
  f_equal. unfold base_complete.
  change (TEXTURE_CUBE_MAP =? TEXTURE_CUBE_MAP) with true. cbv iota.
  cbn [forallb cube_faces seq]. rewrite H0, H1, H2, H3, H4, H5.
  by destruct (ok 0%nat), (ok 1%nat), (ok 2%nat), (ok 3%nat), (ok 4%nat), (ok 5%nat).
Qed.

Lemma cubemap_complete_iff_all_loaded_witness :
  let ok := fun j => negb (j =? 1)%nat in
  let evs := [load 3; error 1; load 0; load 5; load 2; load 4]%nat in
  let w2 := world_of (run_events evs (world_of (configureCubeMap 0 demo_world))) in
  evs ≡ₚ cube_events ok (length (images demo_world)) ∧
  base_complete TEXTURE_CUBE_MAP <$> cubeMap_texture w2 = Some (forallb ok (seq 0 6)).
Proof.
  cbv zeta.
  assert (H : [load 3; error 1; load 0; load 5; load 2; load 4]%nat
              ≡ₚ cube_events (fun j => negb (j =? 1)%nat) (length (images demo_world))).
  { apply (bool_decide_unpack _). by vm_compute. }
  split; [exact H|].
  exact (cubemap_complete_iff_all_loaded 0 demo_world _ _ H).
Defined.

(** X7: the closure of a face does not use the [cubeMap] it captured.
    After a second call of [configureCubeMap] the global and unit 0 name
    the second cubemap, and the load event of an image of the first call,
    whose closure captured the first cubemap, uploads its face into the
    second one; the first cubemap receives nothing. *)
Theorem earlier_closure_uploads_to_later_cubemap (p q : nat) (w : World) (k : nat) :
  (k < 6)%nat →
  let n := length (textures (ctx w)) in
  let i := (length (images w) + k)%nat in
  let w2 := world_of ((configureCubeMap p ;; configureCubeMap q) w) in
  let w3 := world_of (dispatch (load i) w2) in
  onload <$> images w2 !! i = Some (Some (FaceUpload (Some n) (face_at k) i)) ∧
  cubeMap w2 = Some (S n) ∧
  textures (ctx w3) !! n = Some (cube_texture ∅) ∧
  textures (ctx w3) !! S n = Some (cube_texture (store_face ∅ (face_at k, i))).
Proof.
  intros Hk. cbv zeta. unfold bind. rewrite configureCubeMap_run, configureCubeMap_run.
  cbn [world_of].
  destruct (faces_lookup k Hk) as (f & Hf & Hface).
  assert (Hlen : length (textures (ctx (after_configureCubeMap p w)))
                 = S (length (textures (ctx w)))).
  { rewrite textures_after_configureCubeMap, length_app. cbn [length]. lia. }
  assert (Himg : images (after_configureCubeMap q (after_configureCubeMap p w))
                   !! (length (images w) + k)%nat
                 = Some (face_image (Some (length (textures (ctx w))))
                                    (length (images w) + k) f)).
  { unfold after_configureCubeMap at 1. cbn [images].
    rewrite lookup_app_l.
    - unfold after_configureCubeMap. cbn [images]. by apply cube_heap_lookup.
    - unfold after_configureCubeMap. cbn [images].
      rewrite length_app, cube_images_length. lia. }
  split_and!.
  - rewrite Himg. cbn [fmap option_fmap option_map face_image onload]. by rewrite Hface.
  - unfold after_configureCubeMap at 1. cbn [cubeMap]. by rewrite Hlen.
  - rewrite dispatch_run. cbn [world_of ctx]. unfold uploads. cbn [omap list_omap].
    unfold upload_of, handler. rewrite Himg.
    cbn [mbind option_bind face_image onload foldl].
    rewrite (upload_bound _ _ _ (f.2, _) (eq_trans (f_equal is_cube_face Hface)
               (face_at_cube_face k Hk)) (bound_after_configureCubeMap q _)).
    cbn [set_textures textures]. rewrite Hlen.
    rewrite list_lookup_insert_ne by lia.
    rewrite !textures_after_configureCubeMap.
    rewrite lookup_app_l by (rewrite length_app; cbn [length]; lia).
    apply lookup_snoc_new.
  - rewrite dispatch_run. cbn [world_of ctx]. unfold uploads. cbn [omap list_omap].
    unfold upload_of, handler. rewrite Himg.
    cbn [mbind option_bind face_image onload foldl].
    rewrite (upload_bound _ _ _ (f.2, _) (eq_trans (f_equal is_cube_face Hface)
               (face_at_cube_face k Hk)) (bound_after_configureCubeMap q _)).
    cbn [set_textures textures]. rewrite Hlen, <- Hlen.
    rewrite (textures_after_configureCubeMap q), insert_snoc_new, lookup_snoc_new.
    by rewrite Hface.
Qed.

Lemma earlier_closure_uploads_to_later_cubemap_witness :
  let p := 0%nat in
  let q := 1%nat in
  let w := demo_world in
  let k := 2%nat in
  let n := length (textures (ctx w)) in
  let i := (length (images w) + k)%nat in
  let w2 := world_of ((configureCubeMap p ;; configureCubeMap q) w) in
  let w3 := world_of (dispatch (load i) w2) in
  (k < 6)%nat ∧
  onload <$> images w2 !! i = Some (Some (FaceUpload (Some n) (face_at k) i)) ∧
  cubeMap w2 = Some (S n) ∧
  textures (ctx w3) !! n = Some (cube_texture ∅) ∧
  textures (ctx w3) !! S n = Some (cube_texture (store_face ∅ (face_at k, i))).
Proof.
  cbv zeta. assert (H : (2 < 6)%nat) by lia.
  split; [exact H|].
  exact (earlier_closure_uploads_to_later_cubemap 0 1 demo_world 2 H).
Defined.



End further.
